(** * Elucidator: the command-line driver

    A shallow embedding of [Elucidator.py], the driver of the docstring
    tool: [get_arguments], [get_logger] and [main].  The driver is glue
    around effects (reading two sample files, calling the docstring
    service, printing, prompting, writing files), so the embedding is a
    small state-and-exception monad over a [World] that holds the file
    system, the pending lines of standard input and the trace of calls
    the driver has made.

    The docstring service itself ([docstrings.DocstringService]) is not
    part of this file's subject: [document_file] is a parameter of the
    section that embeds [main]. *)

From Stdlib Require Import ZArith Ascii String List Lia.
From stdpp Require Import base gmap strings list.

Local Open Scope string_scope.
Local Open Scope Z_scope.

(** ** Python strings

    Text is modelled by Rocq strings: sequences of 8-bit characters, read
    as the code points 0..255. *)

Module PyStr.

(** [s.split(sep)] for a separator of one character: the pieces between
    the occurrences of [sep]; never the empty list. *)
Fixpoint split (sep : ascii) (s : string) : list string :=
  match s with
  | EmptyString => [EmptyString]
  | String c rest =>
      if Ascii.eqb c sep then EmptyString :: split sep rest
      else match split sep rest with
           | [] => [String c EmptyString]
           | piece :: pieces => String c piece :: pieces
           end
  end.

(** [sep.join(pieces)]. *)
Fixpoint join (sep : ascii) (pieces : list string) : string :=
  match pieces with
  | [] => EmptyString
  | [piece] => piece
  | piece :: more => piece +:+ String sep (join sep more)
  end.

(** [c in s]. *)
Fixpoint contains (c : ascii) (s : string) : bool :=
  match s with
  | EmptyString => false
  | String d rest => Ascii.eqb d c || contains c rest
  end.

(** [c.isspace()] on the code points below 256. *)
Definition isspace (c : ascii) : bool :=
  let n := Z.of_nat (nat_of_ascii c) in
  ((9 <=? n) && (n <=? 13)) || ((28 <=? n) && (n <=? 32))
  || (n =? 133) || (n =? 160).

Fixpoint lstrip (s : string) : string :=
  match s with
  | EmptyString => EmptyString
  | String c rest => if isspace c then lstrip rest else s
  end.

Definition rstrip (s : string) : string :=
  String.rev (lstrip (String.rev s)).

(** [s.strip()]. *)
Definition strip (s : string) : string := rstrip (lstrip s).

(** [c.lower()] on the code points below 256: A-Z, and the accented
    capitals 192..222 other than the multiplication sign 215. *)
Definition lower_char (c : ascii) : ascii :=
  let n := Z.of_nat (nat_of_ascii c) in
  if ((65 <=? n) && (n <=? 90))
     || ((192 <=? n) && (n <=? 222) && negb (n =? 215))
  then ascii_of_nat (Z.to_nat (n + 32))
  else c.

(** [s.lower()]. *)
Fixpoint lower (s : string) : string :=
  match s with
  | EmptyString => EmptyString
  | String c rest => String (lower_char c) (lower rest)
  end.

(** [c * n]. *)
Fixpoint repeat_char (c : ascii) (n : nat) : string :=
  match n with
  | O => EmptyString
  | S k => String c (repeat_char c k)
  end.

Definition is_digit (c : ascii) : bool :=
  let n := Z.of_nat (nat_of_ascii c) in (48 <=? n) && (n <=? 57).

Fixpoint all_digits (s : string) : bool :=
  match s with
  | EmptyString => true
  | String c rest => is_digit c && all_digits rest
  end.

Fixpoint digits_value (acc : Z) (s : string) : Z :=
  match s with
  | EmptyString => acc
  | String c rest =>
      digits_value (10 * acc + (Z.of_nat (nat_of_ascii c) - 48)) rest
  end.

(** [int(s)] on an optional sign followed by decimal digits; [None]
    stands for [ValueError].  (Python also accepts surrounding
    whitespace and underscores between digits; argument strings of that
    shape are outside the model.) *)
Definition int (s : string) : option Z :=
  let unsigned (t : string) :=
    match t with
    | EmptyString => None
    | _ => if all_digits t then Some (digits_value 0 t) else None
    end in
  match s with
  | String "-"%char t => Z.opp <$> unsigned t
  | String "+"%char t => unsigned t
  | _ => unsigned s
  end.

Definition newline : string := String "010"%char EmptyString.

End PyStr.

(** ** The parsed arguments

    The namespace [parser.parse_args()] returns, with the two attributes
    [get_arguments] adds to it. *)

Record Args := mkArgs {
  attempts : Z;
  create : bool;
  depth : Z;
  log_level : Z;
  modify : bool;
  preview : bool;
  report : bool;
  update : bool;
  validate : bool;
  filenames : list string;
  example_docstring : string;
  example_function : string
}.

(** ** The argument parser

    [argparse] is Python's library; what the source contributes is the
    table of [add_argument] calls.  [Dest] names the destinations,
    [option_strings] the flags that select them. *)

Inductive Dest :=
| d_attempts | d_create | d_depth | d_log_level | d_modify
| d_preview | d_report | d_update | d_validate | d_help.

Definition option_strings : list (string * Dest) :=
  [ ("-h", d_help); ("--help", d_help);
    ("-a", d_attempts); ("--attempts", d_attempts);
    ("-c", d_create); ("--create", d_create);
    ("-d", d_depth); ("--depth", d_depth);
    ("-l", d_log_level); ("--log-level", d_log_level);
    ("-m", d_modify); ("--modify", d_modify);
    ("-p", d_preview); ("--preview", d_preview);
    ("-r", d_report); ("--report", d_report);
    ("-u", d_update); ("--update", d_update);
    ("-v", d_validate); ("--validate", d_validate) ].

Fixpoint find_option (table : list (string * Dest)) (tok : string)
  : option Dest :=
  match table with
  | [] => None
  | (name, d) :: more =>
      if String.eqb name tok then Some d else find_option more tok
  end.

(** The defaults of the table; the two example texts are not attributes
    of the namespace yet and are modelled by the empty string until
    [get_arguments] sets them. *)
Definition defaults : Args :=
  {| attempts := 5; create := false; depth := 1; log_level := 0;
     modify := false; preview := false; report := false; update := false;
     validate := false; filenames := [];
     example_docstring := ""; example_function := "" |}.

Definition set_attempts (v : Z) (a : Args) : Args :=
  mkArgs v (create a) (depth a) (log_level a) (modify a) (preview a)
         (report a) (update a) (validate a) (filenames a)
         (example_docstring a) (example_function a).

Definition set_depth (v : Z) (a : Args) : Args :=
  mkArgs (attempts a) (create a) v (log_level a) (modify a) (preview a)
         (report a) (update a) (validate a) (filenames a)
         (example_docstring a) (example_function a).

Definition set_log_level (v : Z) (a : Args) : Args :=
  mkArgs (attempts a) (create a) (depth a) v (modify a) (preview a)
         (report a) (update a) (validate a) (filenames a)
         (example_docstring a) (example_function a).

Definition set_create (a : Args) : Args :=
  mkArgs (attempts a) true (depth a) (log_level a) (modify a) (preview a)
         (report a) (update a) (validate a) (filenames a)
         (example_docstring a) (example_function a).

Definition set_modify (a : Args) : Args :=
  mkArgs (attempts a) (create a) (depth a) (log_level a) true (preview a)
         (report a) (update a) (validate a) (filenames a)
         (example_docstring a) (example_function a).

Definition set_preview (a : Args) : Args :=
  mkArgs (attempts a) (create a) (depth a) (log_level a) (modify a) true
         (report a) (update a) (validate a) (filenames a)
         (example_docstring a) (example_function a).

Definition set_report (a : Args) : Args :=
  mkArgs (attempts a) (create a) (depth a) (log_level a) (modify a)
         (preview a) true (update a) (validate a) (filenames a)
         (example_docstring a) (example_function a).

Definition set_update (a : Args) : Args :=
  mkArgs (attempts a) (create a) (depth a) (log_level a) (modify a)
         (preview a) (report a) true (validate a) (filenames a)
         (example_docstring a) (example_function a).

Definition set_validate (a : Args) : Args :=
  mkArgs (attempts a) (create a) (depth a) (log_level a) (modify a)
         (preview a) (report a) (update a) true (filenames a)
         (example_docstring a) (example_function a).

Definition add_filename (f : string) (a : Args) : Args :=
  mkArgs (attempts a) (create a) (depth a) (log_level a) (modify a)
         (preview a) (report a) (update a) (validate a)
         (filenames a ++ [f])
         (example_docstring a) (example_function a).

Definition set_examples (doc fn : string) (a : Args) : Args :=
  mkArgs (attempts a) (create a) (depth a) (log_level a) (modify a)
         (preview a) (report a) (update a) (validate a) (filenames a)
         doc fn.

(** How the parser ends: with a namespace, or by leaving the program
    ([parser.error] exits with status 2, [-h] with status 0). *)
Inductive Parsed :=
| Namespace (a : Args)
| Exit (status : Z).

(** The three options declared with [type=int].  [--attempts] and
    [--depth] store whatever integer they are given (their range only
    appears in [metavar] and [help]); [--log-level] has
    [choices=range(0, 3)]. *)
Definition store_int (d : Dest) (v : Z) (a : Args) : Parsed :=
  match d with
  | d_attempts => Namespace (set_attempts v a)
  | d_depth => Namespace (set_depth v a)
  | d_log_level =>
      if (0 <=? v) && (v <? 3) then Namespace (set_log_level v a)
      else Exit 2
  | _ => Exit 2
  end.

(** The options declared with [action='store_true']. *)
Definition store_true (d : Dest) (a : Args) : Args :=
  match d with
  | d_create => set_create a
  | d_modify => set_modify a
  | d_preview => set_preview a
  | d_report => set_report a
  | d_update => set_update a
  | d_validate => set_validate a
  | _ => a
  end.

Definition takes_value (d : Dest) : bool :=
  match d with
  | d_attempts | d_depth | d_log_level => true
  | _ => false
  end.

(** argparse reads a token such as [-3] or [-.5] as a value, not as an
    option, when no declared option looks like a negative number: the
    token is a [-] followed by digits, or by digits that may be none, a
    point and digits. *)
Fixpoint drop_digits (s : string) : string :=
  match s with
  | String c rest => if PyStr.is_digit c then drop_digits rest else s
  | EmptyString => EmptyString
  end.

Definition looks_negative_number (tok : string) : bool :=
  match tok with
  | String "-"%char (String c rest) =>
      (PyStr.is_digit c && PyStr.all_digits rest)
      || match drop_digits (String c rest) with
         | String "."%char (String d frac) =>
             PyStr.is_digit d && PyStr.all_digits frac
         | _ => false
         end
  | _ => false
  end.

(** A token is a value (argparse's [A]) when it does not start with [-],
    is [-] alone, or is a negative number. *)
Definition is_value (tok : string) : bool :=
  match tok with
  | String "-"%char EmptyString => true
  | String "-"%char _ => looks_negative_number tok
  | _ => true
  end.

(** Where the scan stands with respect to the positional [filenames]
    ([nargs='*']): it takes the first run of consecutive values; a value
    that comes after that run has been closed by an option is an
    unrecognised argument. *)
Inductive Positionals := Before | Collecting | Closed.

(** [parse_args] on the tokens after the program name, read from left to
    right.  A value option without a value next to it, a value [int]
    refuses and a value outside [choices] end the program at once with
    status 2, [-h] ends it at once with status 0 (the help text it prints
    is not modelled); unrecognised arguments are collected ([extras]) and
    end the program with status 2 when the scan is over.

    The model covers the command lines whose options are written as one
    of the exact option strings of the table, a value option being
    followed by its value in the next token.  argparse's other spellings
    (unambiguous prefixes of long options, [--opt=value], joined [-a5],
    clustered [-cm], [--], a token with a space after its [-]) are not
    modelled: such a token counts as an unrecognised argument. *)
Fixpoint parse_tokens (toks : list string) (pos : Positionals)
    (extras : bool) (a : Args) : Parsed :=
  match toks with
  | [] => if extras then Exit 2 else Namespace a
  | tok :: rest =>
      if is_value tok then
        match pos with
        | Closed => parse_tokens rest Closed true a
        | _ => parse_tokens rest Collecting extras (add_filename tok a)
        end
      else
        let pos' := match pos with Before => Before | _ => Closed end in
        match find_option option_strings tok with
        | None => parse_tokens rest pos' true a
        | Some d_help => Exit 0
        | Some d =>
            if takes_value d then
              match rest with
              | [] => Exit 2
              | v :: rest' =>
                  if is_value v then
                    match PyStr.int v with
                    | None => Exit 2
                    | Some n =>
                        match store_int d n a with
                        | Namespace a' => parse_tokens rest' pos' extras a'
                        | Exit s => Exit s
                        end
                    end
                  else Exit 2
              end
            else parse_tokens rest pos' extras (store_true d a)
        end
  end.

Definition parse_args (argv : list string) : Parsed :=
  parse_tokens argv Before false defaults.

(** ** The logger and the docstring service handle *)

(** [get_logger]: the level set on the logger, by [log_level]; no level is
    set for a value other than 0, 1 or 2. *)
Record Logger := mkLogger { level : option Z }.

Definition CRITICAL : Z := 50.
Definition INFO : Z := 20.
Definition DEBUG : Z := 10.

Definition get_logger (args : Args) : Logger :=
  if log_level args =? 0 then mkLogger (Some CRITICAL)
  else if log_level args =? 1 then mkLogger (Some INFO)
  else if log_level args =? 2 then mkLogger (Some DEBUG)
  else mkLogger None.

(** [DocstringService(args, logger)]: the object [main] builds once and
    calls for every file; it carries the configuration. *)
Record Service := DocstringService {
  service_args : Args;
  service_logger : Logger
}.

(** ** The world of the driver *)

(** The calls the driver makes to the outside, in the order it makes them:
    [EvRead] for [open(path, 'r')] and [read], [EvDocument] for
    [docstring_service.document_file(filename, function_paths)],
    [EvPrint] for [print(text)], [EvInput] for [input(prompt)] and
    [EvWrite] for [open(path, 'w')] and [write(text)].  An event is
    recorded when the call is made, also when the call then raises. *)
Inductive Event :=
| EvRead (path : string)
| EvDocument (service : Service) (filename : string)
             (function_paths : option (list string))
| EvPrint (text : string)
| EvInput (prompt : string)
| EvWrite (path : string) (text : string).

(** [files]: the content of the files that exist.  [locked]: the paths
    the system refuses to open for writing (a read-only file, a
    directory, a missing parent).  [stdin]: the lines still to be read
    from standard input, without their newline.  [trace]: the calls made
    so far, oldest first. *)
Record World := mkWorld {
  files : gmap string string;
  locked : gset string;
  stdin : list string;
  trace : list Event
}.

Inductive Exn :=
| SystemExit (status : Z)
| FileNotFoundError (path : string)
| PermissionError (path : string)
| EOFError
| ServiceError (message : string).

Inductive Result (A : Type) :=
| Ok (value : A)
| Raise (e : Exn).
Arguments Ok {A} value.
Arguments Raise {A} e.

(** A computation of the driver: from a world to a result, or the
    exception that ended it, and the world left behind. *)
Definition M (A : Type) : Type := World -> Result A * World.

Definition ret {A} (x : A) : M A := fun w => (Ok x, w).

Definition raise {A} (e : Exn) : M A := fun w => (Raise e, w).

Definition bind {A B} (m : M A) (k : A -> M B) : M B :=
  fun w =>
    match m w with
    | (Ok x, w') => k x w'
    | (Raise e, w') => (Raise e, w')
    end.

Declare Scope driver_scope.
Delimit Scope driver_scope with driver.
Notation "x <- m ;; k" := (bind m (fun x => k))
  (at level 100, m at next level, right associativity) : driver_scope.
Notation "m ;; k" := (bind m (fun _ => k))
  (at level 100, right associativity) : driver_scope.
Local Open Scope driver_scope.

Definition when (b : bool) (m : M unit) : M unit :=
  if b then m else ret tt.

(** [for x in xs: body(x)]. *)
Fixpoint for_each {A} (xs : list A) (body : A -> M unit) : M unit :=
  match xs with
  | [] => ret tt
  | x :: more => body x ;; for_each more body
  end.

Definition emit (e : Event) (w : World) : World :=
  mkWorld (files w) (locked w) (stdin w) (trace w ++ [e]).

(** [print(text)]. *)
Definition print (text : string) : M unit :=
  fun w => (Ok tt, emit (EvPrint text) w).

(** [input(prompt)]: the next line of standard input, or [EOFError] when
    there is none. *)
Definition input (prompt : string) : M string :=
  fun w =>
    let w' := emit (EvInput prompt) w in
    match stdin w' with
    | [] => (Raise EOFError, w')
    | line :: more =>
        (Ok line, mkWorld (files w') (locked w') more (trace w'))
    end.

(** [with open(path, 'r') as infile: infile.read()]. *)
Definition read_file (path : string) : M string :=
  fun w =>
    let w' := emit (EvRead path) w in
    match files w' !! path with
    | Some text => (Ok text, w')
    | None => (Raise (FileNotFoundError path), w')
    end.

(** [with open(path, 'w') as outfile: outfile.write(text)]. *)
Definition write_file (path text : string) : M unit :=
  fun w =>
    let w' := emit (EvWrite path text) w in
    if decide (path ∈ locked w') then (Raise (PermissionError path), w')
    else (Ok tt, mkWorld (<[path := text]> (files w')) (locked w')
                         (stdin w') (trace w')).

(** ** get_arguments *)

Definition example_docstring_path : string := "samples/example_docstring.txt".
Definition example_function_path : string := "samples/example_function.txt".

Definition get_arguments (argv : list string) : M Args :=
  match parse_args argv with
  | Exit status => raise (SystemExit status)
  | Namespace args =>
      doc <- read_file example_docstring_path ;;
      fn <- read_file example_function_path ;;
      ret (set_examples doc fn args)
  end.

(** ** main *)

Section Driver.

(** What [document_file] returns: the text of the file with the new
    docstrings merged in, and the reports ([None] or a list; an entry is
    modelled by the text [print] shows for it). *)
Definition Documented : Type := string * option (list string).

(** The docstring service, which lives in another module.  A call sees
    the service object, its two arguments and the world, and either
    returns or raises; it writes no file and reads no answer of its own,
    so it leaves the world to the driver. *)
Variable document_file :
  Service -> string -> option (list string) -> World -> Result Documented.

Definition call_document_file (service : Service) (filename : string)
    (function_paths : option (list string)) : M Documented :=
  fun w =>
    (document_file service filename function_paths w,
     emit (EvDocument service filename function_paths) w).

(** Lines 79-81: the file name and the scope paths of a decorated
    filename. *)
Definition parts_of (decorated_filename : string) : list string :=
  PyStr.split ":"%char decorated_filename.

Definition filename_of (decorated_filename : string) : string :=
  hd "" (parts_of decorated_filename).

Definition function_paths_of (decorated_filename : string)
  : option (list string) :=
  let parts := parts_of decorated_filename in
  if (length parts <=? 1)%nat then None else Some (tl parts).

Definition save_prompt (filename : string) : string :=
  PyStr.newline +:+ "Do you want to save these modifications to "
    +:+ filename +:+ "? (y/N) ".

(** Lines 84-85. *)
Definition preview_step (args : Args) (modified_file : string) : M unit :=
  when (preview args) (print modified_file).

(** Lines 87-102. *)
Definition save_step (args : Args) (filename modified_file : string)
  : M unit :=
  when (modify args)
    (save_file <-
       (if preview args then
          user_response <- input (save_prompt filename) ;;
          ret (String.eqb (PyStr.lower (PyStr.strip user_response)) "y")
        else ret (negb (preview args))) ;;
     if save_file : bool then
       write_file filename modified_file ;;
       print ("Updated " +:+ filename)
     else
       print (filename +:+ " was NOT updated.")).

(** Lines 104-107. *)
Definition report_rule : string := PyStr.repeat_char "-"%char 79.

Definition report_step (args : Args) (reports : option (list string))
  : M unit :=
  match reports with
  | Some entries =>
      when (report args && (0 <? length entries)%nat)
        (print report_rule ;; for_each entries print)
  | None => ret tt
  end.

(** Lines 84-107: what the driver does with the result of the service
    for one file. *)
Definition handle_result (args : Args) (filename modified_file : string)
    (reports : option (list string)) : M unit :=
  preview_step args modified_file ;;
  save_step args filename modified_file ;;
  report_step args reports.

(** Lines 79-107: the body of the loop. *)
Definition process (args : Args) (docstring_service : Service)
    (decorated_filename : string) : M unit :=
  let filename := filename_of decorated_filename in
  let function_paths := function_paths_of decorated_filename in
  result <-
    call_document_file docstring_service filename function_paths ;;
  let '(modified_file, reports) := result in
  handle_result args filename modified_file reports.

Definition main (argv : list string) : M unit :=
  args <- get_arguments argv ;;
  let logger := get_logger args in
  let docstring_service := DocstringService args logger in
  for_each (filenames args) (process args docstring_service).

End Driver.

(** ** Reading a run *)

Local Open Scope list_scope.

(** How a computation ended, the world it left, and the calls it made. *)
Definition outcome {A} (m : M A) (w : World) : Result A := (m w).1.
Definition after {A} (m : M A) (w : World) : World := (m w).2.
Definition events_of {A} (m : M A) (w : World) : list Event :=
  drop (length (trace w)) (trace (after m w)).

Definition add_events (evs : list Event) (w : World) : World :=
  mkWorld (files w) (locked w) (stdin w) (trace w ++ evs).

(** A computation only ever appends to the trace. *)
Definition grows {A} (m : M A) : Prop :=
  forall w, exists evs, trace (after m w) = trace w ++ evs.

Definition is_document (e : Event) : bool :=
  match e with EvDocument _ _ _ => true | _ => false end.

Definition is_write (e : Event) : bool :=
  match e with EvWrite _ _ => true | _ => false end.

Definition is_input (e : Event) : bool :=
  match e with EvInput _ => true | _ => false end.

Definition is_read (e : Event) : bool :=
  match e with EvRead _ => true | _ => false end.

(** The service calls among some events, oldest first: file name and
    scope paths. *)
Fixpoint documents (evs : list Event)
  : list (string * option (list string)) :=
  match evs with
  | [] => []
  | EvDocument _ filename function_paths :: more =>
      (filename, function_paths) :: documents more
  | _ :: more => documents more
  end.

(** What the report step shows for a report flag and a returned report
    list, in the words of the specification: the rule and then every
    entry, in the order returned, when the flag is set and the list has an
    entry; nothing otherwise. *)
Definition printed_reports (flag : bool) (reports : option (list string))
  : list Event :=
  match reports with
  | Some (entry :: more) =>
      if flag then EvPrint report_rule :: map EvPrint (entry :: more)
      else []
  | _ => []
  end.

(** The save step ends without an exception. *)
Definition saved_normally (args : Args) (filename modified_file : string)
    (w : World) : Prop :=
  outcome (preview_step args modified_file ;;
           save_step args filename modified_file) w = Ok tt.


(** The cases of the save step (lines 87-102), from a world [w] to how
    the step ends and the world it leaves: nothing happens without
    [modify]; with [modify] alone the file is written; with [modify] and
    [preview] the user is asked first.  A prompt at the end of standard
    input and a refused write end the step with an exception. *)
Inductive Saved (args : Args) (filename modified_file : string) (w : World)
  : Result unit -> World -> Prop :=
| save_off :
    modify args = false ->
    Saved args filename modified_file w (Ok tt) w
| save_direct :
    modify args = true -> preview args = false ->
    filename ∉ locked w ->
    Saved args filename modified_file w (Ok tt)
      (mkWorld (<[filename := modified_file]> (files w)) (locked w) (stdin w)
         (trace w ++ [EvWrite filename modified_file;
                      EvPrint ("Updated " +:+ filename)]))
| save_direct_refused :
    modify args = true -> preview args = false ->
    filename ∈ locked w ->
    Saved args filename modified_file w (Raise (PermissionError filename))
      (add_events [EvWrite filename modified_file] w)
| save_no_answer :
    modify args = true -> preview args = true ->
    stdin w = [] ->
    Saved args filename modified_file w (Raise EOFError)
      (add_events [EvInput (save_prompt filename)] w)
| save_declined user_response more :
    modify args = true -> preview args = true ->
    stdin w = user_response :: more ->
    PyStr.lower (PyStr.strip user_response) <> "y" ->
    Saved args filename modified_file w (Ok tt)
      (mkWorld (files w) (locked w) more
         (trace w ++ [EvInput (save_prompt filename);
                      EvPrint (filename +:+ " was NOT updated.")]))
| save_confirmed user_response more :
    modify args = true -> preview args = true ->
    stdin w = user_response :: more ->
    PyStr.lower (PyStr.strip user_response) = "y" ->
    filename ∉ locked w ->
    Saved args filename modified_file w (Ok tt)
      (mkWorld (<[filename := modified_file]> (files w)) (locked w) more
         (trace w ++ [EvInput (save_prompt filename);
                      EvWrite filename modified_file;
                      EvPrint ("Updated " +:+ filename)]))
| save_confirmed_refused user_response more :
    modify args = true -> preview args = true ->
    stdin w = user_response :: more ->
    PyStr.lower (PyStr.strip user_response) = "y" ->
    filename ∈ locked w ->
    Saved args filename modified_file w (Raise (PermissionError filename))
      (mkWorld (files w) (locked w) more
         (trace w ++ [EvInput (save_prompt filename);
                      EvWrite filename modified_file])).

(** An event that belongs to the processing of [filename] after the
    service call: a print, the save prompt for that file, or a write to
    that file. *)
Definition own_event (filename : string) (e : Event) : Prop :=
  match e with
  | EvPrint _ => True
  | EvInput prompt => prompt = save_prompt filename
  | EvWrite path _ => path = filename
  | EvRead _ | EvDocument _ _ _ => False
  end.

(** The events of one file: the service call for it, then events of its
    own. *)
Definition segment_of (service : Service) (decorated_filename : string)
    (segment : list Event) : Prop :=
  exists rest,
    segment = EvDocument service (filename_of decorated_filename)
                (function_paths_of decorated_filename) :: rest
    /\ Forall (own_event (filename_of decorated_filename)) rest.

(** The service call a decorated filename leads to. *)
Definition target (decorated_filename : string)
  : string * option (list string) :=
  (filename_of decorated_filename, function_paths_of decorated_filename).

(** ** A stand-in service and worlds for the closed examples *)

(** Returns the text of the file unchanged with one report entry, a
    failure; raises when the file does not exist. *)
Definition sample_document_file
  : Service -> string -> option (list string) -> World -> Result Documented :=
  fun _ filename _ w =>
    match files w !! filename with
    | Some text =>
        Ok (text, Some ["foo: generation failed after 5 attempts"])
    | None => Raise (FileNotFoundError filename)
    end.

Definition sample_files : gmap string string :=
  <[example_docstring_path := "An example docstring."]>
    (<[example_function_path := "def example(): pass"]>
       (<["a.py" := "def foo(): pass"]>
          (<["b.py" := "def bar(): pass"]> ∅))).

Definition sample_world (refused : gset string) (answers : list string)
  : World :=
  mkWorld sample_files refused answers [].

Definition sample_args (m p r : bool) (names : list string) : Args :=
  {| attempts := 5; create := true; depth := 1; log_level := 0;
     modify := m; preview := p; report := r; update := false;
     validate := false; filenames := names;
     example_docstring := "An example docstring.";
     example_function := "def example(): pass" |}.

Definition sample_service (args : Args) : Service :=
  DocstringService args (get_logger args).

(** The type of [document_file]. *)
Definition Engine : Type :=
  Service -> string -> option (list string) -> World -> Result Documented.

(** An event of the loop run for [service]: a call to that service, or a
    print, prompt or write; never a read. *)
Definition batch_event (service : Service) (e : Event) : Prop :=
  match e with
  | EvDocument s _ _ => s = service
  | EvRead _ => False
  | _ => True
  end.

(** ** Further notions for the properties of the driver *)

(** The number of occurrences of a character. *)
Fixpoint count_char (c : ascii) (s : string) : nat :=
  match s with
  | EmptyString => O
  | String d rest =>
      (if Ascii.eqb d c then 1 else 0)%nat + count_char c rest
  end.

(** Nothing but whitespace. *)
Fixpoint all_space (s : string) : bool :=
  match s with
  | EmptyString => true
  | String c rest => PyStr.isspace c && all_space rest
  end.

(** The namespace of a command line that only has filenames. *)
Definition set_filenames (names : list string) (a : Args) : Args :=
  mkArgs (attempts a) (create a) (depth a) (log_level a) (modify a)
         (preview a) (report a) (update a) (validate a) names
         (example_docstring a) (example_function a).

(** The two messages of the save step. *)
Definition updated_message (filename : string) : string :=
  "Updated " +:+ filename.

Definition not_updated_message (filename : string) : string :=
  filename +:+ " was NOT updated.".

(** The part of the configuration the driver itself looks at. *)
Definition same_driver_flags (args1 args2 : Args) : Prop :=
  modify args1 = modify args2
  /\ preview args1 = preview args2
  /\ report args1 = report args2.

(** The calls the save step can make for a file, in each of the ways it
    can go: none; the write and its message; a refused write; a prompt
    left without an answer; a prompt and the message that nothing was
    written; a prompt, the write and its message; a prompt and a refused
    write. *)
Definition save_shapes (filename modified_file : string)
  : list (list Event) :=
  [ [];
    [EvWrite filename modified_file; EvPrint (updated_message filename)];
    [EvWrite filename modified_file];
    [EvInput (save_prompt filename)];
    [EvInput (save_prompt filename);
     EvPrint (not_updated_message filename)];
    [EvInput (save_prompt filename); EvWrite filename modified_file;
     EvPrint (updated_message filename)];
    [EvInput (save_prompt filename); EvWrite filename modified_file] ].

(** Events that come of one result of the service and of nothing else:
    the print of the returned text when [preview] is set, then the calls
    of the save step for that file and text, then the rule and the
    entries of the returned reports, or nothing when the save step
    raised. *)
Definition own_events (args : Args) (filename modified_file : string)
    (reports : option (list string)) (evs : list Event) : Prop :=
  exists saved shown,
    evs = (if preview args then [EvPrint modified_file] else [])
          ++ saved ++ shown
    /\ In saved (save_shapes filename modified_file)
    /\ (shown = [] \/ shown = printed_reports (report args) reports).

(** The segment of one filename, processed in the world [w]: the service
    call for it and then the events that come of what that call returns
    in [w]; nothing more when the call raises. *)
Definition file_segment (document_file : Engine) (args : Args)
    (service : Service) (decorated_filename : string) (w : World)
    (segment : list Event) : Prop :=
  exists rest,
    segment = EvDocument service (filename_of decorated_filename)
                (function_paths_of decorated_filename) :: rest
    /\ match document_file service (filename_of decorated_filename)
               (function_paths_of decorated_filename) w with
       | Ok (modified_file, reports) =>
           own_events args (filename_of decorated_filename) modified_file
             reports rest
       | Raise _ => rest = []
       end.

(** A world without the example files: no file, nothing on standard
    input. *)
Definition bare_world : World := mkWorld ∅ ∅ [] [].
(** *** The monad and the trace *)

Lemma add_events_nil w : add_events [] w = w.
Proof. destruct w; unfold add_events; simpl. by rewrite app_nil_r. Qed.

Lemma add_events_app evs1 evs2 w :
  add_events evs2 (add_events evs1 w) = add_events (evs1 ++ evs2) w.
Proof. unfold add_events; simpl. by rewrite app_assoc. Qed.

Lemma emit_add_events e w : emit e w = add_events [e] w.
Proof. reflexivity. Qed.

Lemma events_of_spec {A} (m : M A) w :
  grows m -> trace (after m w) = trace w ++ events_of m w.
Proof.
  intros Hm. destruct (Hm w) as [evs Hevs].
  unfold events_of. rewrite Hevs. by rewrite drop_app_length.
Qed.

Lemma events_of_eq {A} (m : M A) w evs :
  trace (after m w) = trace w ++ evs -> events_of m w = evs.
Proof. intros H. unfold events_of. rewrite H. apply drop_app_length. Qed.

Lemma grows_ret {A} (x : A) : grows (ret x).
Proof. intros w. exists []. unfold after, ret; simpl. by rewrite app_nil_r. Qed.

Lemma grows_raise {A} e : grows (@raise A e).
Proof. intros w. exists []. unfold after, raise; simpl. by rewrite app_nil_r. Qed.

Lemma grows_bind {A B} (m : M A) (k : A -> M B) :
  grows m -> (forall x, grows (k x)) -> grows (bind m k).
Proof.
  intros Hm Hk w. destruct (Hm w) as [evs Hevs].
  unfold after, bind in *. destruct (m w) as [[x|e] w']; simpl in *.
  - destruct (Hk x w') as [evs' Hevs']. unfold after in Hevs'.
    exists (evs ++ evs'). by rewrite Hevs', Hevs, app_assoc.
  - by exists evs.
Qed.

Lemma grows_when b (m : M unit) : grows m -> grows (when b m).
Proof. destruct b; simpl; [done | intros _; apply grows_ret]. Qed.

Lemma grows_for_each {A} (xs : list A) (body : A -> M unit) :
  (forall x, grows (body x)) -> grows (for_each xs body).
Proof.
  intros Hb. induction xs as [|x xs IH]; simpl.
  - apply grows_ret.
  - apply grows_bind; [apply Hb | intros _; apply IH].
Qed.

Lemma grows_print text : grows (print text).
Proof. intros w. by exists [EvPrint text]. Qed.

Lemma grows_input prompt : grows (input prompt).
Proof.
  intros w. exists [EvInput prompt]. unfold after, input; simpl.
  by destruct (stdin w).
Qed.

Lemma grows_read_file path : grows (read_file path).
Proof.
  intros w. exists [EvRead path]. unfold after, read_file; simpl.
  by destruct (files w !! path).
Qed.

Lemma grows_write_file path text : grows (write_file path text).
Proof.
  intros w. exists [EvWrite path text]. unfold after, write_file; simpl.
  by destruct (decide (path ∈ locked w)).
Qed.

Lemma outcome_bind {A B} (m : M A) (k : A -> M B) w :
  outcome (bind m k) w =
  match outcome m w with
  | Ok x => outcome (k x) (after m w)
  | Raise e => Raise e
  end.
Proof. unfold outcome, after, bind. by destruct (m w) as [[x|e] w']. Qed.

Lemma after_bind {A B} (m : M A) (k : A -> M B) w :
  after (bind m k) w =
  match outcome m w with
  | Ok x => after (k x) (after m w)
  | Raise _ => after m w
  end.
Proof. unfold outcome, after, bind. by destruct (m w) as [[x|e] w']. Qed.

Lemma events_of_bind {A B} (m : M A) (k : A -> M B) w :
  grows m -> (forall x, grows (k x)) ->
  events_of (bind m k) w =
  events_of m w ++
  match outcome m w with
  | Ok x => events_of (k x) (after m w)
  | Raise _ => []
  end.
Proof.
  intros Hm Hk. apply events_of_eq. rewrite after_bind.
  destruct (outcome m w) as [x|e].
  - rewrite (events_of_spec (k x)), (events_of_spec m) by done.
    by rewrite app_assoc.
  - by rewrite app_nil_r, (events_of_spec m).
Qed.

Lemma documents_app evs1 evs2 :
  documents (evs1 ++ evs2) = documents evs1 ++ documents evs2.
Proof.
  induction evs1 as [|e evs1 IH]; [done|].
  destruct e; simpl; by rewrite ?IH.
Qed.

Lemma documents_none evs :
  Forall (fun e => is_document e = false) evs -> documents evs = [].
Proof.
  induction 1 as [|e evs He _ IH]; [done|]. by destruct e.
Qed.

(** *** Splitting and joining *)

Section SplitFacts.

Variable sep : ascii.

Lemma split_not_nil s : PyStr.split sep s <> [].
Proof.
  destruct s as [|c s]; simpl; [done|].
  destruct (Ascii.eqb c sep); [done|].
  by destruct (PyStr.split sep s).
Qed.

Lemma join_cons_char c piece pieces :
  PyStr.join sep (String c piece :: pieces)
  = String c (PyStr.join sep (piece :: pieces)).
Proof. by destruct pieces. Qed.

Lemma join_split s : PyStr.join sep (PyStr.split sep s) = s.
Proof.
  induction s as [|c s IH]; [done|]. simpl.
  destruct (Ascii.eqb c sep) eqn:Hc.
  - apply Ascii.eqb_eq in Hc as ->.
    pose proof (split_not_nil s) as Hne.
    destruct (PyStr.split sep s) as [|p ps] eqn:Hs; [done|].
    change (PyStr.join sep ("" :: p :: ps))
      with (String sep (PyStr.join sep (p :: ps))).
    by rewrite IH.
  - pose proof (split_not_nil s) as Hne.
    destruct (PyStr.split sep s) as [|p ps] eqn:Hs; [done|].
    by rewrite join_cons_char, IH.
Qed.

Lemma split_pieces s :
  Forall (fun piece => PyStr.contains sep piece = false) (PyStr.split sep s).
Proof.
  induction s as [|c s IH]; simpl.
  - by constructor.
  - destruct (Ascii.eqb c sep) eqn:Hc.
    + by constructor.
    + destruct (PyStr.split sep s) as [|p ps]; simpl.
      * constructor; [|done]. simpl. by rewrite Hc.
      * inversion IH as [|? ? Hp Hps]; subst.
        constructor; [|done]. simpl. by rewrite Hc, Hp.
Qed.

Lemma split_length s :
  (length (PyStr.split sep s) <=? 1)%nat = negb (PyStr.contains sep s).
Proof.
  induction s as [|c s IH]; [done|]. simpl.
  pose proof (split_not_nil s) as Hne.
  destruct (Ascii.eqb c sep) eqn:Hc; simpl.
  - by destruct (PyStr.split sep s).
  - rewrite <- IH. by destruct (PyStr.split sep s).
Qed.

Lemma split_without_sep s :
  PyStr.contains sep s = false -> PyStr.split sep s = [s].
Proof.
  intros Hs. pose proof (split_length s) as Hlen. rewrite Hs in Hlen.
  pose proof (join_split s) as Hjoin.
  pose proof (split_not_nil s) as Hne.
  destruct (PyStr.split sep s) as [|p [|q ps]]; simpl in *; congruence.
Qed.

Lemma split_append_sep piece s :
  PyStr.contains sep piece = false ->
  PyStr.split sep (piece +:+ String sep s) = piece :: PyStr.split sep s.
Proof.
  induction piece as [|c piece IH]; simpl.
  - intros _. by rewrite Ascii.eqb_refl.
  - intros Hc. apply orb_false_elim in Hc as [Hc Hpiece].
    by rewrite Hc, (IH Hpiece).
Qed.

Lemma split_join piece pieces :
  Forall (fun p => PyStr.contains sep p = false) (piece :: pieces) ->
  PyStr.split sep (PyStr.join sep (piece :: pieces)) = piece :: pieces.
Proof.
  revert piece. induction pieces as [|q pieces IH]; intros piece Hall.
  - apply Forall_cons in Hall as [Hpiece _]. by apply split_without_sep.
  - apply Forall_cons in Hall as [Hpiece Hrest].
    change (PyStr.join sep (piece :: q :: pieces))
      with (piece +:+ String sep (PyStr.join sep (q :: pieces))).
    by rewrite split_append_sep, IH.
Qed.

End SplitFacts.

(** *** The steps of the loop body *)

Lemma for_each_print entries w :
  for_each entries print w = (Ok tt, add_events (map EvPrint entries) w).
Proof.
  revert w. induction entries as [|entry more IH]; intros w; simpl.
  - unfold ret. by rewrite add_events_nil.
  - unfold bind, print at 1. rewrite IH, emit_add_events.
    by rewrite add_events_app.
Qed.

Lemma preview_step_eq args modified_file w :
  preview_step args modified_file w
  = (Ok tt, add_events (if preview args then [EvPrint modified_file] else []) w).
Proof.
  unfold preview_step, when. destruct (preview args); [done|].
  unfold ret. by rewrite add_events_nil.
Qed.

Lemma report_step_eq args reports w :
  report_step args reports w
  = (Ok tt, add_events (printed_reports (report args) reports) w).
Proof.
  unfold report_step, printed_reports.
  destruct reports as [entries|]; [|unfold ret; by rewrite add_events_nil].
  destruct entries as [|entry more].
  - rewrite andb_false_r. unfold when, ret. by rewrite add_events_nil.
  - change (0 <? length (entry :: more))%nat with true.
    rewrite andb_true_r. unfold when.
    destruct (report args); [|unfold ret; by rewrite add_events_nil].
    unfold bind, print at 1.
    by rewrite for_each_print, emit_add_events, add_events_app.
Qed.

Lemma grows_preview_step args modified_file :
  grows (preview_step args modified_file).
Proof. apply grows_when, grows_print. Qed.

Lemma grows_save_step args filename modified_file :
  grows (save_step args filename modified_file).
Proof.
  apply grows_when, grows_bind.
  - destruct (preview args); [|apply grows_ret].
    apply grows_bind; [apply grows_input | intros; apply grows_ret].
  - intros [|]; [|apply grows_print].
    apply grows_bind; [apply grows_write_file | intros; apply grows_print].
Qed.

Lemma grows_report_step args reports : grows (report_step args reports).
Proof.
  intros w. unfold after. rewrite report_step_eq. by eexists.
Qed.

Lemma grows_handle_result args filename modified_file reports :
  grows (handle_result args filename modified_file reports).
Proof.
  apply grows_bind; [apply grows_preview_step | intros _].
  apply grows_bind; [apply grows_save_step | intros _].
  apply grows_report_step.
Qed.

Section DriverFacts.

Variable document_file :
  Service -> string -> option (list string) -> World -> Result Documented.

Lemma grows_call_document_file service filename function_paths :
  grows (call_document_file document_file service filename function_paths).
Proof. intros w. by exists [EvDocument service filename function_paths]. Qed.

Lemma grows_process args service decorated_filename :
  grows (process document_file args service decorated_filename).
Proof.
  apply grows_bind; [apply grows_call_document_file|].
  intros [modified_file reports]. apply grows_handle_result.
Qed.

Lemma grows_get_arguments argv : grows (get_arguments argv).
Proof.
  unfold get_arguments. destruct (parse_args argv); [|apply grows_raise].
  apply grows_bind; [apply grows_read_file | intros doc].
  apply grows_bind; [apply grows_read_file | intros fn; apply grows_ret].
Qed.

Lemma grows_main argv : grows (main document_file argv).
Proof.
  apply grows_bind; [apply grows_get_arguments | intros args].
  apply grows_for_each. intros d. apply grows_process.
Qed.

End DriverFacts.

(** *** The save step and the handling of a result *)

Lemma save_step_spec args filename modified_file w :
  Saved args filename modified_file w
    (outcome (save_step args filename modified_file) w)
    (after (save_step args filename modified_file) w).
Proof.
  unfold outcome, after, save_step, when.
  destruct (modify args) eqn:Hm; [|by apply save_off].
  destruct (preview args) eqn:Hp;
    unfold bind, input, write_file, print, ret, emit; simpl.
  - destruct (stdin w) as [|resp more] eqn:Hin; simpl.
    + match goal with |- Saved _ _ _ _ _ ?x =>
        replace x with (add_events [EvInput (save_prompt filename)] w)
          by (unfold add_events; by rewrite Hin)
      end.
      by apply save_no_answer.
    + destruct (String.eqb (PyStr.lower (PyStr.strip resp)) "y") eqn:Hy.
      * apply String.eqb_eq in Hy. cbn [locked files stdin trace].
        destruct (decide (filename ∈ locked w)); simpl;
          rewrite <- !app_assoc; simpl.
        -- by eapply save_confirmed_refused.
        -- by eapply save_confirmed.
      * apply String.eqb_neq in Hy. simpl.
        rewrite <- app_assoc. by eapply save_declined.
  - cbn [locked files stdin trace].
    destruct (decide (filename ∈ locked w)); simpl.
    + by apply save_direct_refused.
    + rewrite <- app_assoc. by apply save_direct.
Qed.

Lemma handle_result_eq args filename modified_file reports w :
  handle_result args filename modified_file reports w =
  let w1 := add_events (if preview args then [EvPrint modified_file] else []) w in
  match save_step args filename modified_file w1 with
  | (Ok _, w2) => (Ok tt, add_events (printed_reports (report args) reports) w2)
  | (Raise e, w2) => (Raise e, w2)
  end.
Proof.
  unfold handle_result, bind. rewrite preview_step_eq. simpl.
  destruct (save_step _ _ _ _) as [[[]|e] w2]; [|done].
  by rewrite report_step_eq.
Qed.

(** *** One iteration of the loop *)

Lemma function_paths_of_eq d :
  function_paths_of d =
  if PyStr.contains ":" d then Some (tl (parts_of d)) else None.
Proof.
  unfold function_paths_of, parts_of. rewrite split_length.
  by destruct (PyStr.contains ":" d).
Qed.

Lemma events_of_call_document_file (document_file : Engine) service filename
    function_paths w :
  events_of (call_document_file document_file service filename function_paths) w
  = [EvDocument service filename function_paths].
Proof. by apply events_of_eq. Qed.

Lemma events_of_process (document_file : Engine) args service d w :
  events_of (process document_file args service d) w =
  EvDocument service (filename_of d) (function_paths_of d) ::
  match document_file service (filename_of d) (function_paths_of d) w with
  | Ok (modified_file, reports) =>
      events_of (handle_result args (filename_of d) modified_file reports)
        (emit (EvDocument service (filename_of d) (function_paths_of d)) w)
  | Raise _ => []
  end.
Proof.
  unfold process. rewrite events_of_bind.
  - rewrite events_of_call_document_file. simpl. f_equal.
    unfold outcome, after, call_document_file; simpl.
    by destruct (document_file _ _ _ _) as [[m r]|e].
  - apply grows_call_document_file.
  - intros [m r]. apply grows_handle_result.
Qed.

(** C1: a decorated filename is cut at its colons.  The piece before the
    first colon is the file name given to the service and every later
    piece is one scope path, in order; with no colon in it, the whole
    string is the file name and the service gets [None] for the scope
    paths.  The call to the service is the first thing the driver does for
    the file, and the file name and scope paths it is made with are the
    only way to write the decorated filename as colon-free pieces joined
    by colons. *)
Theorem decorated_filename_split (document_file : Engine) args service
    (decorated_filename : string) (w : World) :
  exists filename scope_paths rest,
    decorated_filename = PyStr.join ":" (filename :: scope_paths)
    /\ PyStr.contains ":" filename = false
    /\ Forall (fun path => PyStr.contains ":" path = false) scope_paths
    /\ (scope_paths = [] <-> PyStr.contains ":" decorated_filename = false)
    /\ events_of (process document_file args service decorated_filename) w
       = EvDocument service filename
           (if PyStr.contains ":" decorated_filename
            then Some scope_paths else None) :: rest
    /\ (forall filename' scope_paths',
          decorated_filename = PyStr.join ":" (filename' :: scope_paths') ->
          Forall (fun path => PyStr.contains ":" path = false)
            (filename' :: scope_paths') ->
          filename' = filename /\ scope_paths' = scope_paths).
Proof.
  pose proof (join_split ":" decorated_filename) as Hjoin.
  pose proof (split_pieces ":" decorated_filename) as Hpieces.
  pose proof (split_length ":" decorated_filename) as Hlen.
  pose proof (events_of_process document_file args service
                decorated_filename w) as Hev.
  rewrite function_paths_of_eq in Hev.
  unfold filename_of, parts_of in Hev.
  destruct (PyStr.split ":" decorated_filename) as [|filename scope_paths]
    eqn:Hsplit.
  { by apply split_not_nil in Hsplit. }
  apply Forall_cons in Hpieces as [Hfile Hpaths].
  exists filename, scope_paths. eexists.
  split; [done|]. split; [done|]. split; [done|]. split; [|split].
  - destruct scope_paths; simpl in Hlen;
      destruct (PyStr.contains ":" decorated_filename); simpl in Hlen;
      split; congruence.
  - simpl in Hev. by rewrite Hev.
  - intros filename' scope_paths' Hd Hall.
    apply split_join in Hall. rewrite <- Hd, Hsplit in Hall.
    by inversion Hall.
Qed.

Lemma handle_result_cases args filename modified_file reports w :
  exists res w2,
    Saved args filename modified_file
      (add_events (if preview args then [EvPrint modified_file] else []) w)
      res w2
    /\ handle_result args filename modified_file reports w
       = (res, match res with
               | Ok _ => add_events (printed_reports (report args) reports) w2
               | Raise _ => w2
               end).
Proof.
  rewrite handle_result_eq. cbv zeta.
  pose proof (save_step_spec args filename modified_file
    (add_events (if preview args then [EvPrint modified_file] else []) w))
    as HS.
  unfold outcome, after in HS.
  destruct (save_step _ _ _ _) as [[[]|e] w2]; simpl in HS; eauto.
Qed.

Lemma preview_save_cases args filename modified_file w :
  exists res w2,
    Saved args filename modified_file
      (add_events (if preview args then [EvPrint modified_file] else []) w)
      res w2
    /\ (preview_step args modified_file ;;
        save_step args filename modified_file) w = (res, w2).
Proof.
  unfold bind. rewrite preview_step_eq.
  pose proof (save_step_spec args filename modified_file
    (add_events (if preview args then [EvPrint modified_file] else []) w))
    as HS.
  unfold outcome, after in HS.
  destruct (save_step _ _ _ _) as [[[]|e] w2]; simpl in HS; eauto.
Qed.

Lemma printed_reports_prints flag reports :
  Forall (fun e => exists text, e = EvPrint text) (printed_reports flag reports).
Proof.
  unfold printed_reports. destruct reports as [[|entry more]|]; try done.
  destruct flag; [|done].
  constructor; [by eexists|]. apply Forall_fmap, Forall_true.
  intros text. by eexists.
Qed.

(** C3: whether the merged text is shown, asked about, written or left
    aside is decided without looking at the reports.  Two runs on the same
    flags, the same merged text and the same world (hence the same answer
    on standard input) that differ only in the report list make the same
    calls up to the printing of the reports, end the same way and leave
    the same files. *)
Theorem save_decision_ignores_reports args filename modified_file
    (reports1 reports2 : option (list string)) (w : World) :
  let run1 := handle_result args filename modified_file reports1 in
  let run2 := handle_result args filename modified_file reports2 in
  exists decision,
    events_of run1 w
    = decision ++ match outcome run1 w with
                  | Ok _ => printed_reports (report args) reports1
                  | Raise _ => []
                  end
    /\ events_of run2 w
       = decision ++ match outcome run2 w with
                     | Ok _ => printed_reports (report args) reports2
                     | Raise _ => []
                     end
    /\ outcome run1 w = outcome run2 w
    /\ files (after run1 w) = files (after run2 w)
    /\ stdin (after run1 w) = stdin (after run2 w).
Proof.
  intros run1 run2. subst run1 run2.
  destruct (handle_result_cases args filename modified_file reports1 w)
    as (res & w2 & HS & H1).
  destruct (handle_result_cases args filename modified_file reports2 w)
    as (res' & w2' & HS' & H2).
  assert (Hgrow : exists evs, trace w2 = trace w ++ evs).
  { destruct HS; simpl; rewrite <- ?app_assoc; by eexists. }
  destruct Hgrow as [evs Hevs].
  assert (res' = res /\ w2' = w2) as [-> ->].
  { clear H1 H2 Hevs.
    destruct HS; inversion HS'; subst; try done; try congruence;
      try (split; [done|]; f_equal; congruence). }
  exists evs. unfold events_of, outcome, after. rewrite H1, H2. simpl.
  destruct res as [[]|e]; simpl; rewrite ?Hevs, <- ?app_assoc,
    ?drop_app_length, ?app_nil_r; done.
Qed.

(** C5: with [preview] set, the first thing the driver does with the text
    the service returned is to print it, whole; this holds whatever the
    [modify] flag and the answer to the prompt are, so also when the text
    is never written. *)
Theorem preview_prints_merged_text (document_file : Engine) args service
    (decorated_filename modified_file : string)
    (reports : option (list string)) (w : World) :
  preview args = true ->
  document_file service (filename_of decorated_filename)
    (function_paths_of decorated_filename) w = Ok (modified_file, reports) ->
  exists rest,
    events_of (process document_file args service decorated_filename) w
    = EvDocument service (filename_of decorated_filename)
        (function_paths_of decorated_filename)
      :: EvPrint modified_file :: rest.
Proof.
  intros Hp Hdoc. rewrite events_of_process, Hdoc.
  set (w1 := emit (EvDocument service (filename_of decorated_filename)
                     (function_paths_of decorated_filename)) w).
  destruct (handle_result_cases args (filename_of decorated_filename)
              modified_file reports w1) as (res & w2 & HS & Heq).
  rewrite Hp in HS.
  assert (Hgrow : exists evs,
    trace w2 = trace w1 ++ EvPrint modified_file :: evs).
  { clearbody w1. destruct HS; simpl; rewrite <- ?app_assoc; simpl;
      try congruence; by eexists. }
  destruct Hgrow as [evs Hevs]. clearbody w1.
  unfold events_of, after. rewrite Heq. simpl.
  destruct res as [[]|e]; simpl; rewrite Hevs, <- ?app_assoc; simpl;
    rewrite drop_app_length; eexists; reflexivity.
Qed.

Lemma preview_prints_merged_text_witness :
  exists rest,
    events_of (process sample_document_file
                 (sample_args false true false ["a.py"])
                 (sample_service (sample_args false true false ["a.py"]))
                 "a.py") (sample_world ∅ [])
    = EvDocument (sample_service (sample_args false true false ["a.py"]))
        (filename_of "a.py") (function_paths_of "a.py")
      :: EvPrint "def foo(): pass" :: rest.
Proof.
  apply (preview_prints_merged_text sample_document_file
           (sample_args false true false ["a.py"])
           (sample_service (sample_args false true false ["a.py"]))
           "a.py" "def foo(): pass"
           (Some ["foo: generation failed after 5 attempts"])
           (sample_world ∅ [])).
  - reflexivity.
  - vm_compute. reflexivity.
Defined.

Lemma process_eq (document_file : Engine) args service d w :
  process document_file args service d w =
  match document_file service (filename_of d) (function_paths_of d) w with
  | Ok (modified_file, reports) =>
      handle_result args (filename_of d) modified_file reports
        (emit (EvDocument service (filename_of d) (function_paths_of d)) w)
  | Raise e =>
      (Raise e,
       emit (EvDocument service (filename_of d) (function_paths_of d)) w)
  end.
Proof.
  unfold process, bind, call_document_file.
  by destruct (document_file _ _ _ _) as [[m r]|e].
Qed.

Lemma printed_reports_not_write flag reports :
  Forall (fun e => is_write e = false) (printed_reports flag reports).
Proof.
  eapply Forall_impl; [apply printed_reports_prints|].
  by intros e [text ->].
Qed.

Lemma printed_reports_not_input flag reports prompt :
  ~ In (EvInput prompt) (printed_reports flag reports).
Proof.
  intros Hin. pose proof (printed_reports_prints flag reports) as Hall.
  rewrite Forall_forall in Hall. apply list_elem_of_In in Hin.
  by destruct (Hall _ Hin) as [text ?].
Qed.

Lemma printed_reports_no_write flag reports path text :
  ~ In (EvWrite path text) (printed_reports flag reports).
Proof.
  intros Hin. pose proof (printed_reports_prints flag reports) as Hall.
  rewrite Forall_forall in Hall. apply list_elem_of_In in Hin.
  by destruct (Hall _ Hin) as [text' ?].
Qed.

(** C6: with [preview] set and [modify] not set, processing a file makes
    no write call and leaves every file as it was. *)
Theorem preview_only_writes_nothing (document_file : Engine) args service
    (decorated_filename : string) (w : World) :
  preview args = true ->
  modify args = false ->
  files (after (process document_file args service decorated_filename) w)
  = files w
  /\ Forall (fun e => is_write e = false)
       (events_of (process document_file args service decorated_filename) w).
Proof.
  intros Hp Hm. unfold events_of, after. rewrite process_eq.
  destruct (document_file _ _ _ _) as [[modified_file reports]|e]; simpl.
  - set (w1 := emit _ w).
    destruct (handle_result_cases args (filename_of decorated_filename)
                modified_file reports w1) as (res & w2 & HS & Heq).
    rewrite Heq. destruct HS; try congruence. subst w1. simpl.
    split; [done|].
    rewrite <- !app_assoc, drop_app_length. simpl.
    constructor; [done|]. apply Forall_app. split.
    + rewrite Hp. by constructor.
    + apply printed_reports_not_write.
  - split; [done|]. rewrite drop_app_length. by constructor.
Qed.

Lemma preview_only_writes_nothing_witness :
  files (after (process sample_document_file
                  (sample_args false true true ["a.py"])
                  (sample_service (sample_args false true true ["a.py"]))
                  "a.py") (sample_world ∅ []))
  = files (sample_world ∅ [])
  /\ Forall (fun e => is_write e = false)
       (events_of (process sample_document_file
                     (sample_args false true true ["a.py"])
                     (sample_service (sample_args false true true ["a.py"]))
                     "a.py") (sample_world ∅ [])).
Proof.
  apply (preview_only_writes_nothing sample_document_file
           (sample_args false true true ["a.py"])
           (sample_service (sample_args false true true ["a.py"]))
           "a.py" (sample_world ∅ [])); reflexivity.
Defined.

(** Lines 104-107 when they are reached: for a file whose preview and
    save steps ran to their end, the driver then prints the report
    entries, after a rule of 79 dashes and in the order the service
    returned them, if and only if the [report] flag is set and the
    returned list has an entry; every entry of the list is among the
    printed lines. *)
Theorem reports_printed_iff args (filename modified_file : string)
    (reports : option (list string)) (w : World) :
  saved_normally args filename modified_file w ->
  exists shown,
    events_of (handle_result args filename modified_file reports) w
    = events_of (preview_step args modified_file ;;
                 save_step args filename modified_file) w ++ shown
    /\ (shown <> [] <->
        report args = true
        /\ exists entry more, reports = Some (entry :: more))
    /\ (shown <> [] ->
        exists entries,
          reports = Some entries
          /\ shown = EvPrint report_rule :: map EvPrint entries
          /\ forall entry, In entry entries -> In (EvPrint entry) shown).
Proof.
  unfold saved_normally. intros Hok.
  destruct (handle_result_cases args filename modified_file reports w)
    as (res & w2 & HS & Heq).
  destruct (preview_save_cases args filename modified_file w)
    as (res' & w2' & HS' & Heq').
  assert (res' = res /\ w2' = w2) as [-> ->].
  { clear Heq Heq' Hok.
    destruct HS; inversion HS'; subst; try done; try congruence;
      try (split; [done|]; f_equal; congruence). }
  unfold outcome in Hok. rewrite Heq' in Hok. simpl in Hok. subst res.
  assert (Hgrow : exists evs, trace w2 = trace w ++ evs).
  { clear Heq Heq'. inversion HS; subst; simpl; rewrite <- ?app_assoc;
      by eexists. }
  destruct Hgrow as [evs Hevs].
  exists (printed_reports (report args) reports).
  split; [|split].
  - unfold events_of, after. rewrite Heq, Heq'. simpl.
    by rewrite Hevs, <- app_assoc, !drop_app_length.
  - unfold printed_reports.
    destruct reports as [[|entry more]|]; destruct (report args);
      split; try done; try (intros [? (? & ? & ?)]; congruence);
      try (intros _; split; eauto).
  - unfold printed_reports.
    destruct reports as [[|entry more]|]; destruct (report args);
      try done.
    intros _. exists (entry :: more). split; [done|]. split; [done|].
    intros e He. right. by apply in_map.
Qed.

Lemma reports_printed_iff_witness :
  saved_normally (sample_args true true true ["a.py"]) "a.py"
    "def foo(): pass" (sample_world ∅ ["n"])
  /\ exists shown,
    events_of (handle_result (sample_args true true true ["a.py"]) "a.py"
                 "def foo(): pass" (Some ["foo: failed"; "bar: created"]))
      (sample_world ∅ ["n"])
    = events_of (preview_step (sample_args true true true ["a.py"])
                   "def foo(): pass" ;;
                 save_step (sample_args true true true ["a.py"]) "a.py"
                   "def foo(): pass") (sample_world ∅ ["n"]) ++ shown
    /\ (shown <> [] <->
        report (sample_args true true true ["a.py"]) = true
        /\ exists entry more,
             Some ["foo: failed"; "bar: created"] = Some (entry :: more))
    /\ (shown <> [] ->
        exists entries,
          Some ["foo: failed"; "bar: created"] = Some entries
          /\ shown = EvPrint report_rule :: map EvPrint entries
          /\ forall entry, In entry entries -> In (EvPrint entry) shown).
Proof.
  split; [reflexivity|].
  apply (reports_printed_iff (sample_args true true true ["a.py"]) "a.py"
           "def foo(): pass" (Some ["foo: failed"; "bar: created"])
           (sample_world ∅ ["n"])).
  reflexivity.
Defined.

(** C7, on the code: the report lines are lost when the save step raises.
    When the prompt hits the end of standard input or the write is
    refused, the exception leaves the loop body before lines 104-107:
    the handling of the file ends with that exception, makes no call
    after the save step, and the only thing it can have printed is the
    preview of the merged text, so no report entry is shown, whatever
    the [report] flag and the report list are. *)
Theorem report_skipped_when_save_raises args (filename modified_file : string)
    (reports : option (list string)) (w : World) (e : Exn) :
  outcome (preview_step args modified_file ;;
           save_step args filename modified_file) w = Raise e ->
  outcome (handle_result args filename modified_file reports) w = Raise e
  /\ events_of (handle_result args filename modified_file reports) w
     = events_of (preview_step args modified_file ;;
                  save_step args filename modified_file) w
  /\ forall text,
       In (EvPrint text)
          (events_of (handle_result args filename modified_file reports) w) ->
       text = modified_file.
Proof.
  intros Hraise.
  destruct (handle_result_cases args filename modified_file reports w)
    as (res & w2 & HS & Heq).
  destruct (preview_save_cases args filename modified_file w)
    as (res' & w2' & HS' & Heq').
  assert (res' = res /\ w2' = w2) as [-> ->].
  { clear Heq Heq' Hraise.
    destruct HS; inversion HS'; subst; try done; try congruence;
      try (split; [done|]; f_equal; congruence). }
  unfold outcome in Hraise. rewrite Heq' in Hraise. simpl in Hraise.
  subst res.
  unfold outcome, events_of, after. rewrite Heq, Heq'.
  split; [done|]. split; [done|]. cbn [snd]. clear Heq Heq' HS'.
  intros text.
  inversion HS; subst; cbn [trace add_events];
    rewrite <- ?app_assoc, ?drop_app_length;
    destruct (preview args); simpl; intros Hin;
    repeat match goal with
           | H : _ \/ _ |- _ => destruct H
           | H : False |- _ => destruct H
           | H : EvPrint _ = EvPrint _ |- _ => injection H as H
           | H : @eq Event _ _ |- _ => discriminate H
           end; congruence.
Qed.

Lemma report_skipped_when_save_raises_witness :
  report (sample_args true false true ["a.py"]) = true
  /\ outcome (handle_result (sample_args true false true ["a.py"]) "a.py"
                "def foo(): pass"
                (Some ["foo: generation failed after 5 attempts"]))
       (sample_world {["a.py"]} [])
     = Raise (PermissionError "a.py")
  /\ ~ In (EvPrint "foo: generation failed after 5 attempts")
         (events_of (handle_result (sample_args true false true ["a.py"])
                       "a.py" "def foo(): pass"
                       (Some ["foo: generation failed after 5 attempts"]))
            (sample_world {["a.py"]} [])).
Proof.
  destruct (report_skipped_when_save_raises
              (sample_args true false true ["a.py"]) "a.py"
              "def foo(): pass"
              (Some ["foo: generation failed after 5 attempts"])
              (sample_world {["a.py"]} []) (PermissionError "a.py"))
    as (Hout & _ & Hprints).
  - by vm_compute.
  - split; [reflexivity|]. split; [exact Hout|].
    intros Hin. apply Hprints in Hin. discriminate Hin.
Defined.

(** Settles a goal about which events are in an explicit list of events
    followed by printed reports. *)
Ltac sort_events :=
  repeat match goal with
         | H : exists _, _ |- _ => destruct H
         | H : _ /\ _ |- _ => destruct H
         | H : _ \/ _ |- _ => destruct H
         | H : False |- _ => destruct H
         | H : EvWrite _ _ = EvWrite _ _ |- _ => inversion H; subst; clear H
         | H : EvInput _ = EvInput _ |- _ => inversion H; subst; clear H
         | H : In (EvInput _) (printed_reports _ _) |- _ =>
             by apply printed_reports_not_input in H
         | H : In (EvWrite _ _) (printed_reports _ _) |- _ =>
             by apply printed_reports_no_write in H
         | H : @eq Event _ _ |- _ => discriminate H
         end;
  try done; try congruence; eauto 10;
  try match goal with
      | H : ~ _ |- _ => exfalso; apply H; by eauto 10
      end.

(** C10: under [modify], the driver asks for confirmation exactly when
    [preview] is set as well, with the prompt that names the file; having
    asked, it writes the merged text to the file exactly when the answer,
    stripped and lowercased, is [y]; without [preview] it writes without
    asking and reads nothing from standard input.  A write is always of
    the merged text to the file name, and puts that text in the file
    unless the system refuses the write; when no write is made the files
    are as before. *)
Theorem modify_prompts_iff_preview args (filename modified_file : string)
    (reports : option (list string)) (w : World) :
  modify args = true ->
  let run := handle_result args filename modified_file reports in
  ((exists prompt, In (EvInput prompt) (events_of run w))
   <-> preview args = true)
  /\ (forall prompt,
        In (EvInput prompt) (events_of run w) ->
        prompt = save_prompt filename)
  /\ (preview args = true ->
      (In (EvWrite filename modified_file) (events_of run w)
       <-> exists user_response more,
             stdin w = user_response :: more
             /\ PyStr.lower (PyStr.strip user_response) = "y"))
  /\ (preview args = false ->
      In (EvWrite filename modified_file) (events_of run w)
      /\ stdin (after run w) = stdin w)
  /\ (forall path text,
        In (EvWrite path text) (events_of run w) ->
        path = filename /\ text = modified_file)
  /\ (In (EvWrite filename modified_file) (events_of run w) ->
      filename ∉ locked w ->
      files (after run w) = <[filename := modified_file]> (files w))
  /\ (~ In (EvWrite filename modified_file) (events_of run w) ->
      files (after run w) = files w).
Proof.
  intros Hm run. subst run.
  destruct (handle_result_cases args filename modified_file reports w)
    as (res & w2 & HS & Heq).
  unfold events_of, after. rewrite Heq. clear Heq.
  destruct HS as [H0 | H0 Hp Hl | H0 Hp Hl | H0 Hp Hin
                 | resp more H0 Hp Hin Hy | resp more H0 Hp Hin Hy Hl
                 | resp more H0 Hp Hin Hy Hl];
    try congruence; rewrite Hp; simpl in *;
    rewrite <- ?app_assoc, ?drop_app_length; simpl;
    repeat split; intros;
    repeat match goal with
           | H : In _ (_ ++ _) |- _ => apply in_app_iff in H
           | H : ~ In _ (_ ++ _) |- _ => rewrite in_app_iff in H
           | |- context [In _ (_ ++ _)] => rewrite in_app_iff
           end; simpl in *;
    sort_events.
Qed.

Lemma modify_prompts_iff_preview_witness :
  In (EvWrite "a.py" "def foo(): return 1")
     (events_of (handle_result (sample_args true true false ["a.py"]) "a.py"
                   "def foo(): return 1" None)
        (sample_world ∅ [" Y "])).
Proof.
  pose proof (modify_prompts_iff_preview
                (sample_args true true false ["a.py"]) "a.py"
                "def foo(): return 1" None (sample_world ∅ [" Y "])
                eq_refl) as (_ & _ & Hwrite & _).
  apply Hwrite; [reflexivity|].
  exists " Y ", []. split; reflexivity.
Defined.

(** *** The loop over the filenames *)

Lemma handle_result_own_events args filename modified_file reports w :
  Forall (own_event filename)
    (events_of (handle_result args filename modified_file reports) w).
Proof.
  destruct (handle_result_cases args filename modified_file reports w)
    as (res & w2 & HS & Heq).
  unfold events_of, after. rewrite Heq. clear Heq.
  assert (Hprinted : Forall (own_event filename)
                       (printed_reports (report args) reports)).
  { eapply Forall_impl; [apply printed_reports_prints|].
    by intros e [text ->]. }
  destruct HS; simpl; rewrite <- ?app_assoc, ?drop_app_length;
    repeat (apply Forall_app; split); try done;
    destruct (preview args); repeat constructor; done.
Qed.

Lemma process_segment (document_file : Engine) args service d w :
  segment_of service d (events_of (process document_file args service d) w).
Proof.
  rewrite events_of_process. eexists. split; [reflexivity|].
  destruct (document_file _ _ _ _) as [[m r]|e]; [|done].
  apply handle_result_own_events.
Qed.

Lemma for_each_process_segments (document_file : Engine) args service names w :
  exists processed remaining segments,
    names = processed ++ remaining
    /\ Forall2 (segment_of service) processed segments
    /\ events_of (for_each names (process document_file args service)) w
       = concat segments
    /\ match outcome (for_each names (process document_file args service)) w
       with
       | Ok _ => remaining = []
       | Raise _ => processed <> []
       end.
Proof.
  revert w. induction names as [|d names IH]; intros w.
  - exists [], [], []. split; [done|]. split; [constructor|].
    split; [|done]. apply events_of_eq. simpl. by rewrite app_nil_r.
  - pose proof (process_segment document_file args service d w) as Hseg.
    cbn [for_each].
    rewrite events_of_bind, outcome_bind;
      [|apply grows_process
       |intros _; apply grows_for_each; intros; apply grows_process].
    destruct (outcome (process document_file args service d) w) as [[]|e].
    + destruct (IH (after (process document_file args service d) w))
        as (processed & remaining & segments & Hn & Hs & He & Ho).
      exists (d :: processed), remaining,
        (events_of (process document_file args service d) w :: segments).
      split; [by rewrite Hn|]. split; [constructor; [exact Hseg | exact Hs]|].
      split; [by rewrite He|].
      destruct (outcome _ _); [done | congruence].
    + exists [d], names,
        [events_of (process document_file args service d) w].
      split; [done|].
      split; [constructor; [exact Hseg | constructor]|].
      split; [simpl; by rewrite !app_nil_r | done].
Qed.

Lemma documents_segment service d segment :
  segment_of service d segment -> documents segment = [target d].
Proof.
  intros (rest & -> & Hrest). simpl. unfold target. f_equal.
  apply documents_none. eapply Forall_impl; [exact Hrest|].
  by intros [].
Qed.

Lemma documents_segments service processed segments :
  Forall2 (segment_of service) processed segments ->
  documents (concat segments) = map target processed.
Proof.
  induction 1 as [|d seg processed segments Hseg _ IH]; [done|].
  simpl. rewrite documents_app, IH.
  by rewrite (documents_segment _ _ _ Hseg).
Qed.

Lemma handle_result_own args filename modified_file reports w :
  own_events args filename modified_file reports
    (events_of (handle_result args filename modified_file reports) w).
Proof.
  destruct (handle_result_cases args filename modified_file reports w)
    as (res & w2 & HS & Heq).
  unfold events_of, after. rewrite Heq. clear Heq. unfold own_events.
  destruct HS as [H0 | H0 Hp Hl | H0 Hp Hl | H0 Hp Hin
                 | resp more H0 Hp Hin Hy | resp more H0 Hp Hin Hy Hl
                 | resp more H0 Hp Hin Hy Hl];
    cbn [trace add_events fst snd]; rewrite <- ?app_assoc, ?drop_app_length.
  - exists [], (printed_reports (report args) reports).
    split; [done|]. split; [by left | by right].
  - exists [EvWrite filename modified_file;
            EvPrint (updated_message filename)],
      (printed_reports (report args) reports).
    split; [done|]. split; [right; by left | by right].
  - exists [EvWrite filename modified_file], [].
    split; [done|]. split; [do 2 right; by left | by left].
  - exists [EvInput (save_prompt filename)], [].
    split; [done|]. split; [do 3 right; by left | by left].
  - exists [EvInput (save_prompt filename);
            EvPrint (not_updated_message filename)],
      (printed_reports (report args) reports).
    split; [done|]. split; [do 4 right; by left | by right].
  - exists [EvInput (save_prompt filename);
            EvWrite filename modified_file;
            EvPrint (updated_message filename)],
      (printed_reports (report args) reports).
    split; [done|]. split; [do 5 right; by left | by right].
  - exists [EvInput (save_prompt filename);
            EvWrite filename modified_file], [].
    split; [done|]. split; [do 6 right; by left | by left].
Qed.

Lemma process_file_segment (document_file : Engine) args service d w :
  file_segment document_file args service d w
    (events_of (process document_file args service d) w).
Proof.
  rewrite events_of_process. eexists. split; [reflexivity|].
  destruct (document_file _ _ _ _) as [[m r]|e]; [|done].
  apply handle_result_own.
Qed.

(** C8: the files are processed one after the other, in the order of the
    list.  The calls of a run fall into consecutive segments, one for
    each filename of an initial part of the list (all of it when the run
    ends without an exception, and up to the file that raised
    otherwise).  The segment at position i is the doing of the filename
    at position i alone: the service call for it, made in the world the
    files before it left, and then nothing but what comes of that call's
    result, in this order: the print of the text it returned, the prompt
    that names the file, the write of that text to the file, the message
    that names the file, and the rule and the entries of the reports it
    returned.  So the printing, the save decision and the report of a
    file are over when the service is called for the next. *)
Theorem files_processed_in_order (document_file : Engine) args service
    (names : list string) (w : World) :
  exists segments,
    events_of (for_each names (process document_file args service)) w
    = concat segments
    /\ (length segments <= length names)%nat
    /\ (forall i d segment,
          names !! i = Some d ->
          segments !! i = Some segment ->
          file_segment document_file args service d
            (after (for_each (take i names)
                      (process document_file args service)) w)
            segment)
    /\ match outcome (for_each names (process document_file args service)) w
       with
       | Ok _ => length segments = length names
       | Raise _ => segments <> []
       end.
Proof.
  revert w. induction names as [|d names IH]; intros w.
  - exists []. split; [|split; [done|split; [done|done]]].
    apply events_of_eq. simpl. by rewrite app_nil_r.
  - pose proof (process_file_segment document_file args service d w) as Hseg.
    cbn [for_each].
    rewrite events_of_bind, outcome_bind;
      [|apply grows_process
       |intros _; apply grows_for_each; intros; apply grows_process].
    destruct (outcome (process document_file args service d) w)
      as [[]|e] eqn:Hout.
    + destruct (IH (after (process document_file args service d) w))
        as (segments & He & Hlen & Hsegs & Ho).
      exists (events_of (process document_file args service d) w :: segments).
      split; [by rewrite He|]. split; [simpl; lia|]. split.
      * intros [|i] d' segment Hd Hs; simpl in Hd, Hs.
        -- injection Hd as <-. injection Hs as <-. exact Hseg.
        -- cbn [take for_each]. rewrite after_bind, Hout.
           by apply Hsegs.
      * revert Ho.
        destruct (outcome (for_each names _) _); intros Ho;
          [simpl; by rewrite Ho | done].
    + exists [events_of (process document_file args service d) w].
      split; [simpl; by rewrite !app_nil_r|]. split; [simpl; lia|].
      split; [|done].
      intros [|i] d' segment Hd Hs; simpl in Hd, Hs; [|done].
      injection Hd as <-. injection Hs as <-. exact Hseg.
Qed.

Lemma for_each_app {A} (xs ys : list A) (body : A -> M unit) w :
  for_each (xs ++ ys) body w
  = bind (for_each xs body) (fun _ => for_each ys body) w.
Proof.
  revert w. induction xs as [|x xs IH]; intros w; [done|].
  cbn [app for_each]. unfold bind.
  destruct (body x w) as [[[]|e] w']; [|done].
  rewrite IH. reflexivity.
Qed.

Lemma run_ext {A} (m1 m2 : M A) w :
  m1 w = m2 w -> outcome m1 w = outcome m2 w.
Proof. unfold outcome. by intros ->. Qed.

Lemma run_ext' {A} (m1 m2 : M A) w :
  m1 w = m2 w ->
  after m1 w = after m2 w /\ events_of m1 w = events_of m2 w.
Proof. unfold events_of, after. by intros ->. Qed.

Lemma documents_of_completed (document_file : Engine) args service names w :
  outcome (for_each names (process document_file args service)) w = Ok tt ->
  documents (events_of (for_each names (process document_file args service)) w)
  = map target names.
Proof.
  intros Hok.
  destruct (for_each_process_segments document_file args service names w)
    as (processed & remaining & segments & Hn & Hs & He & Ho).
  rewrite Hok in Ho. subst remaining.
  rewrite He, (documents_segments _ _ _ Hs), Hn. by rewrite app_nil_r.
Qed.

(** C4, on the code: nothing in [main] catches an exception, so a failure
    that shows as one ends the batch.  When the filenames before [d] were
    processed without an exception and the processing of [d] raises [e]
    (from the service call, from the prompt at the end of standard input
    or from the write), the whole batch ends with that same [e], in the
    world the processing of [d] left, and the service has been called
    for the filenames up to [d] and for none of those after it. *)
Theorem exception_aborts_batch (document_file : Engine) args service
    (processed : list string) (d : string) (remaining : list string)
    (w : World) (e : Exn) :
  outcome (for_each processed (process document_file args service)) w
  = Ok tt ->
  outcome (process document_file args service d)
    (after (for_each processed (process document_file args service)) w)
  = Raise e ->
  outcome (for_each (processed ++ d :: remaining)
             (process document_file args service)) w
  = Raise e
  /\ after (for_each (processed ++ d :: remaining)
              (process document_file args service)) w
     = after (process document_file args service d)
         (after (for_each processed (process document_file args service)) w)
  /\ documents
       (events_of (for_each (processed ++ d :: remaining)
                     (process document_file args service)) w)
     = map target (processed ++ [d]).
Proof.
  intros Hbefore Hraise.
  pose proof (for_each_app processed (d :: remaining)
                (process document_file args service) w) as Happ.
  assert (Hgrows : forall names,
            grows (for_each names (process document_file args service))).
  { intros names. apply grows_for_each. intros; apply grows_process. }
  rewrite (run_ext _ _ _ Happ), (proj1 (run_ext' _ _ _ Happ)),
    (proj2 (run_ext' _ _ _ Happ)).
  rewrite outcome_bind, after_bind, events_of_bind, Hbefore by done.
  cbn [for_each].
  rewrite outcome_bind, after_bind, events_of_bind, Hraise;
    [|apply grows_process | done].
  split; [done|]. split; [done|].
  rewrite documents_app, app_nil_r, map_app. f_equal.
  - by apply documents_of_completed.
  - apply (documents_segment service), process_segment.
Qed.

Lemma exception_aborts_batch_witness :
  outcome (for_each ["a.py"; "b.py"]
             (process sample_document_file
                (sample_args true false false ["a.py"; "b.py"])
                (sample_service
                   (sample_args true false false ["a.py"; "b.py"]))))
    (sample_world {["a.py"]} [])
  = Raise (PermissionError "a.py")
  /\ documents
       (events_of
          (for_each ["a.py"; "b.py"]
             (process sample_document_file
                (sample_args true false false ["a.py"; "b.py"])
                (sample_service
                   (sample_args true false false ["a.py"; "b.py"]))))
          (sample_world {["a.py"]} []))
     = [target "a.py"].
Proof.
  destruct (exception_aborts_batch sample_document_file
              (sample_args true false false ["a.py"; "b.py"])
              (sample_service (sample_args true false false ["a.py"; "b.py"]))
              [] "a.py" ["b.py"] (sample_world {["a.py"]} [])
              (PermissionError "a.py"))
    as (Hout & _ & Hdocs).
  - reflexivity.
  - by vm_compute.
  - split; [exact Hout | exact Hdocs].
Defined.

(** *** get_arguments and main *)

Lemma get_arguments_eq argv w :
  get_arguments argv w =
  match parse_args argv with
  | Exit status => (Raise (SystemExit status), w)
  | Namespace args =>
      match files w !! example_docstring_path with
      | None =>
          (Raise (FileNotFoundError example_docstring_path),
           add_events [EvRead example_docstring_path] w)
      | Some doc =>
          match files w !! example_function_path with
          | None =>
              (Raise (FileNotFoundError example_function_path),
               add_events [EvRead example_docstring_path;
                           EvRead example_function_path] w)
          | Some fn =>
              (Ok (set_examples doc fn args),
               add_events [EvRead example_docstring_path;
                           EvRead example_function_path] w)
          end
      end
  end.
Proof.
  unfold get_arguments. destruct (parse_args argv) as [args|status]; [|done].
  unfold bind, read_file at 1. cbn [files emit].
  destruct (files w !! example_docstring_path) as [doc|]; [|done].
  unfold read_file. cbn [files emit].
  destruct (files w !! example_function_path) as [fn|];
    unfold ret; by rewrite !emit_add_events, add_events_app.
Qed.

Lemma batch_events (document_file : Engine) args service names w :
  Forall (batch_event service)
    (events_of (for_each names (process document_file args service)) w).
Proof.
  destruct (for_each_process_segments document_file args service names w)
    as (processed & remaining & segments & _ & Hs & -> & _).
  induction Hs as [|d seg processed segments Hseg _ IH]; [constructor|].
  simpl. apply Forall_app. split; [|exact IH].
  destruct Hseg as (rest & -> & Hrest). constructor; [done|].
  eapply Forall_impl; [exact Hrest|]. by intros [].
Qed.

(** C9: the two example texts the service works with are what the driver
    read from [samples/example_docstring.txt] and
    [samples/example_function.txt].  Every call to the service is made
    with a configuration that holds the content of these two files, and
    comes after the two reads, which open the run and are its only reads;
    when either file cannot be read, the run ends with an exception and
    the service is called for no file. *)
Theorem examples_read_before_processing (document_file : Engine)
    (argv : list string) (w : World) :
  let run := main document_file argv in
  (forall service filename function_paths,
     In (EvDocument service filename function_paths) (events_of run w) ->
     files w !! example_docstring_path
     = Some (example_docstring (service_args service))
     /\ files w !! example_function_path
        = Some (example_function (service_args service))
     /\ exists rest,
          events_of run w
          = EvRead example_docstring_path
            :: EvRead example_function_path :: rest
          /\ Forall (fun e => is_read e = false) rest)
  /\ (files w !! example_docstring_path = None
      \/ files w !! example_function_path = None ->
      documents (events_of run w) = []
      /\ exists e, outcome run w = Raise e).
Proof.
  intros run. subst run.
  unfold events_of, outcome, after, main, bind.
  rewrite get_arguments_eq.
  destruct (parse_args argv) as [args|status].
  2:{ simpl. rewrite drop_all. split; [by intros ? ? ? []|].
      intros _. split; [done | by eexists]. }
  destruct (files w !! example_docstring_path) as [doc|] eqn:Hdoc.
  2:{ simpl. rewrite drop_app_length. split.
      - intros ? ? ? [?|[]]. done.
      - intros _. split; [done | by eexists]. }
  destruct (files w !! example_function_path) as [fn|] eqn:Hfn.
  2:{ simpl. rewrite drop_app_length. split.
      - intros ? ? ? [?|[?|[]]]; done.
      - intros _. split; [done | by eexists]. }
  set (args' := set_examples doc fn args).
  set (service := DocstringService args' (get_logger args')).
  set (w1 := add_events _ w).
  pose proof (batch_events document_file args' service (filenames args') w1)
    as Hbatch.
  pose proof (events_of_spec
                (for_each (filenames args')
                   (process document_file args' service)) w1) as Hspec.
  unfold after in Hspec.
  destruct (for_each (filenames args') (process document_file args' service) w1)
    as [res w2] eqn:Hrun.
  simpl in *. rewrite Hspec.
  2:{ apply grows_for_each. intros; apply grows_process. }
  subst w1. simpl. rewrite <- app_assoc, drop_app_length. simpl.
  split; [|intros [?|?]; congruence].
  intros s f p [?|[?|Hin]]; try done.
  rewrite Forall_forall in Hbatch.
  pose proof (Hbatch _ (proj2 (list_elem_of_In _ _) Hin)) as Hs.
  simpl in Hs. subst s. simpl.
  split; [done|]. split; [done|]. eexists. split; [reflexivity|].
  apply Forall_forall. intros e He. specialize (Hbatch e He).
  by destruct e.
Qed.

Lemma events_of_main (document_file : Engine) argv w args doc fn :
  parse_args argv = Namespace args ->
  files w !! example_docstring_path = Some doc ->
  files w !! example_function_path = Some fn ->
  events_of (main document_file argv) w
  = EvRead example_docstring_path :: EvRead example_function_path
    :: events_of
         (for_each (filenames (set_examples doc fn args))
            (process document_file (set_examples doc fn args)
               (DocstringService (set_examples doc fn args)
                  (get_logger (set_examples doc fn args)))))
         (add_events [EvRead example_docstring_path;
                      EvRead example_function_path] w).
Proof.
  intros Hparse Hdoc Hfn. unfold main.
  rewrite events_of_bind;
    [|apply grows_get_arguments
     |intros; apply grows_for_each; intros; apply grows_process].
  unfold events_of at 1, outcome, after.
  rewrite get_arguments_eq, Hparse, Hdoc, Hfn. simpl.
  by rewrite drop_app_length.
Qed.

Lemma examples_read_before_processing_witness :
  files (sample_world ∅ []) !! example_docstring_path
  = Some "An example docstring."
  /\ files (sample_world ∅ []) !! example_function_path
     = Some "def example(): pass".
Proof.
  assert (Hin : In (EvDocument (sample_service
                                  (sample_args false true false ["a.py:foo"]))
                      "a.py" (Some ["foo"]))
                   (events_of (main sample_document_file ["-c"; "-p"; "a.py:foo"])
                      (sample_world ∅ []))).
  { vm_compute. right. right. left. reflexivity. }
  destruct (examples_read_before_processing sample_document_file
              ["-c"; "-p"; "a.py:foo"] (sample_world ∅ [])) as [Hcalls _].
  destruct (Hcalls _ _ _ Hin) as (Hdoc & Hfn & _).
  split; [exact Hdoc | exact Hfn].
Defined.

(** C2, on the code: [--attempts] and [--depth] are declared with
    [type=int] and nothing that bounds them, so [-a 500 -d 0] and
    [--attempts -3] are accepted, the run goes on and the service is
    called for the file with the configuration holding 500 and 0; the
    sibling option [--log-level], declared with [choices], does refuse a
    value outside its range. *)
Theorem out_of_range_values_accepted (document_file : Engine) :
  parse_args ["-a"; "500"; "-d"; "0"; "f.py"]
  = Namespace (mkArgs 500 false 0 0 false false false false false
                 ["f.py"] "" "")
  /\ parse_args ["--attempts"; "-3"; "f.py"]
     = Namespace (mkArgs (-3) false 1 0 false false false false false
                    ["f.py"] "" "")
  /\ parse_args ["-l"; "5"; "f.py"] = Exit 2
  /\ exists service rest,
       attempts (service_args service) = 500
       /\ depth (service_args service) = 0
       /\ events_of (main document_file ["-a"; "500"; "-d"; "0"; "f.py"])
            (sample_world ∅ [])
          = EvRead example_docstring_path :: EvRead example_function_path
            :: EvDocument service "f.py" None :: rest.
Proof.
  split; [reflexivity|]. split; [reflexivity|]. split; [reflexivity|].
  eexists. eexists. split; [|split].
  3:{ rewrite (events_of_main document_file _ _
                 (mkArgs 500 false 0 0 false false false false false
                    ["f.py"] "" "")
                 "An example docstring." "def example(): pass");
        [|reflexivity..].
      cbn [filenames set_examples for_each].
      rewrite events_of_bind;
        [|apply grows_process | intros; apply grows_ret].
      rewrite events_of_process.
      change (filename_of "f.py") with "f.py".
      change (function_paths_of "f.py") with (@None (list string)).
      simpl. reflexivity. }
  all: reflexivity.
Qed.

(** *** Examples *)

(** The positional [filenames] take one run of values; a value after an
    option that follows the run is an unrecognised argument, reported
    when the scan is over, so a later [-h] still wins. *)
Example parse_args_examples :
  parse_args [] = Namespace defaults
  /\ parse_args ["-c"; "-d"; "3"; "a.py:foo"; "b.py"; "-r"]
     = Namespace (mkArgs 5 true 3 0 false false true false false
                    ["a.py:foo"; "b.py"] "" "")
  /\ parse_args ["a.py"; "-c"; "b.py"] = Exit 2
  /\ parse_args ["a.py"; "-c"; "b.py"; "-h"] = Exit 0
  /\ parse_args ["-a"; "five"; "a.py"] = Exit 2
  /\ parse_args ["a.py"; "-a"] = Exit 2.
Proof. repeat split; reflexivity. Qed.

(** [a.py:foo.bar:baz] names the file [a.py] and two scope paths. *)
Example process_decorated (document_file : Engine) args service w :
  exists rest,
    events_of (process document_file args service "a.py:foo.bar:baz") w
    = EvDocument service "a.py" (Some ["foo.bar"; "baz"]) :: rest.
Proof. rewrite events_of_process. by eexists. Qed.

(** A trailing colon gives one scope path, the empty one. *)
Example process_trailing_colon (document_file : Engine) args service w :
  exists rest,
    events_of (process document_file args service "a.py:") w
    = EvDocument service "a.py" (Some [""]) :: rest.
Proof. rewrite events_of_process. by eexists. Qed.

(** A whole run: [-c -m -p -r a.py:foo] with the answer [y]. *)
Example main_run :
  events_of (main sample_document_file ["-c"; "-m"; "-p"; "-r"; "a.py:foo"])
    (sample_world ∅ ["y"])
  = [ EvRead example_docstring_path;
      EvRead example_function_path;
      EvDocument (sample_service (sample_args true true true ["a.py:foo"]))
        "a.py" (Some ["foo"]);
      EvPrint "def foo(): pass";
      EvInput (save_prompt "a.py");
      EvWrite "a.py" "def foo(): pass";
      EvPrint "Updated a.py";
      EvPrint report_rule;
      EvPrint "foo: generation failed after 5 attempts" ].
Proof. by vm_compute. Qed.

(** The report lines are reached only when the save step has ended: at
    the end of standard input the prompt raises and the run stops there,
    with the [report] flag set and a report list that has an entry. *)
Example report_not_reached_after_exception :
  outcome (handle_result (sample_args true true true ["a.py"]) "a.py"
             "def foo(): pass" (Some ["foo: failed"])) (sample_world ∅ [])
  = Raise EOFError
  /\ events_of (handle_result (sample_args true true true ["a.py"]) "a.py"
                  "def foo(): pass" (Some ["foo: failed"]))
       (sample_world ∅ [])
     = [EvPrint "def foo(): pass"; EvInput (save_prompt "a.py")].
Proof. split; by vm_compute. Qed.

(** ** Further properties of the driver *)

(** *** Strings *)

Lemma string_app_cons c (a b : string) :
  String c a +:+ b = String c (a +:+ b).
Proof. reflexivity. Qed.

Lemma string_app_assoc (a b c : string) : (a +:+ b) +:+ c = a +:+ (b +:+ c).
Proof.
  induction a as [|x a IH]; [done|]. by rewrite !string_app_cons, IH.
Qed.

Lemma string_app_nil_r (a : string) : a +:+ "" = a.
Proof.
  induction a as [|x a IH]; [done|]. by rewrite string_app_cons, IH.
Qed.

Lemma string_length_app (a b : string) :
  String.length (a +:+ b) = (String.length a + String.length b)%nat.
Proof.
  induction a as [|x a IH]; [done|]. rewrite string_app_cons. simpl.
  by rewrite IH.
Qed.

Lemma rev_app_eq (s acc : string) :
  String.rev_app s acc = String.rev s +:+ acc.
Proof.
  revert acc. induction s as [|c s IH]; intros acc; [done|].
  unfold String.rev. simpl.
  by rewrite (IH (String c acc)), (IH (String c "")), string_app_assoc.
Qed.

Lemma string_rev_cons c s :
  String.rev (String c s) = String.rev s +:+ String c "".
Proof. unfold String.rev at 1. simpl. apply rev_app_eq. Qed.

Lemma string_rev_app (a b : string) :
  String.rev (a +:+ b) = String.rev b +:+ String.rev a.
Proof.
  induction a as [|c a IH].
  - by rewrite string_app_nil_r.
  - by rewrite string_app_cons, !string_rev_cons, IH, string_app_assoc.
Qed.

Lemma string_rev_involutive (s : string) : String.rev (String.rev s) = s.
Proof.
  induction s as [|c s IH]; [done|].
  by rewrite string_rev_cons, string_rev_app, IH.
Qed.

Lemma all_space_app (a b : string) :
  all_space (a +:+ b) = all_space a && all_space b.
Proof.
  induction a as [|c a IH]; [done|]. rewrite string_app_cons. simpl.
  by rewrite IH, andb_assoc.
Qed.

Lemma all_space_rev (s : string) : all_space (String.rev s) = all_space s.
Proof.
  induction s as [|c s IH]; [done|].
  rewrite string_rev_cons, all_space_app, IH. simpl.
  by rewrite andb_true_r, andb_comm.
Qed.

Lemma lstrip_spec (s : string) :
  exists pre,
    s = pre +:+ PyStr.lstrip s
    /\ all_space pre = true
    /\ match PyStr.lstrip s with
       | EmptyString => True
       | String c _ => PyStr.isspace c = false
       end.
Proof.
  induction s as [|c s (pre & Hs & Hpre & Hhead)]; simpl.
  - by exists "".
  - destruct (PyStr.isspace c) eqn:Hc.
    + exists (String c pre). rewrite string_app_cons. simpl.
      rewrite Hc, Hpre. by rewrite <- Hs.
    + exists "". simpl. by rewrite Hc.
Qed.

Lemma lstrip_spaces_app (pre s : string) :
  all_space pre = true -> PyStr.lstrip (pre +:+ s) = PyStr.lstrip s.
Proof.
  induction pre as [|c pre IH]; [done|]. rewrite string_app_cons. simpl.
  intros H. apply andb_prop in H as [Hc Hpre]. by rewrite Hc, IH.
Qed.

Lemma lower_char_y (c : ascii) :
  PyStr.lower_char c = "y"%char <-> c = "y"%char \/ c = "Y"%char.
Proof.
  split.
  - destruct c as [[] [] [] [] [] [] [] []]; vm_compute;
      intros H; try discriminate H; auto.
  - by intros [-> | ->].
Qed.
Lemma lower_single (s : string) :
  PyStr.lower s = "y" ->
  exists c, s = String c "" /\ (c = "y"%char \/ c = "Y"%char).
Proof.
  destruct s as [|c [|d s]]; simpl; intros H; try discriminate H.
  exists c. split; [done|]. apply lower_char_y. by inversion H.
Qed.

(** X1: among the answers written in characters below U+0100 (the 8-bit
    text of this development; [isspace] and [lower] are those of Python
    on these characters), the ones that confirm the save are exactly [y]
    and [Y] with any such whitespace before and after; [yes], an empty
    line and every other such answer decline. *)
Theorem confirming_answers (user_response : string) :
  PyStr.lower (PyStr.strip user_response) = "y" <->
  exists pre c post,
    user_response = pre +:+ String c post
    /\ all_space pre = true
    /\ all_space post = true
    /\ (c = "y"%char \/ c = "Y"%char).
Proof.
  split.
  - intros H. apply lower_single in H as (c & Hstrip & Hc).
    unfold PyStr.strip, PyStr.rstrip in Hstrip.
    destruct (lstrip_spec user_response) as (pre & Hr & Hpre & _).
    destruct (lstrip_spec (String.rev (PyStr.lstrip user_response)))
      as (pre2 & Hrev & Hpre2 & _).
    apply (f_equal String.rev) in Hstrip.
    rewrite string_rev_involutive in Hstrip.
    change (String.rev (String c "")) with (String c "") in Hstrip.
    rewrite Hstrip in Hrev.
    apply (f_equal String.rev) in Hrev.
    rewrite string_rev_involutive, string_rev_app in Hrev.
    change (String.rev (String c "")) with (String c "") in Hrev.
    change (String c "" +:+ String.rev pre2)
      with (String c (String.rev pre2)) in Hrev.
    exists pre, c, (String.rev pre2).
    rewrite all_space_rev, <- Hrev. done.
  - intros (pre & c & post & -> & Hpre & Hpost & Hc).
    assert (Hns : PyStr.isspace c = false) by (by destruct Hc as [-> | ->]).
    unfold PyStr.strip, PyStr.rstrip.
    rewrite (lstrip_spaces_app _ _ Hpre). simpl. rewrite Hns.
    rewrite string_rev_cons, lstrip_spaces_app
      by (by rewrite all_space_rev).
    simpl. rewrite Hns.
    change (String.rev (String c "")) with (String c "").
    simpl. by destruct Hc as [-> | ->].
Qed.

Lemma split_count sep s :
  length (PyStr.split sep s) = S (count_char sep s).
Proof.
  induction s as [|c s IH]; [done|]. simpl.
  destruct (Ascii.eqb c sep); simpl; [by rewrite IH|].
  pose proof (split_not_nil sep s) as Hne.
  destruct (PyStr.split sep s); [done|]. simpl in *. lia.
Qed.

(** X2: a decorated filename with n colons gives the service n scope
    paths, and [None] instead of an empty list when n is 0. *)
Theorem scope_paths_count (decorated_filename : string) :
  match function_paths_of decorated_filename with
  | Some scope_paths =>
      length scope_paths = count_char ":" decorated_filename
      /\ (0 < count_char ":" decorated_filename)%nat
  | None => count_char ":" decorated_filename = O
  end.
Proof.
  unfold function_paths_of, parts_of.
  pose proof (split_count ":" decorated_filename) as Hlen.
  destruct (PyStr.split ":" decorated_filename) as [|p ps]; [done|].
  simpl in Hlen. injection Hlen as Hlen.
  destruct ps as [|q ps]; simpl in *; [done|]. split; lia.
Qed.

(** *** The argument parser *)

Lemma parse_tokens_cons tok rest pos extras a :
  parse_tokens (tok :: rest) pos extras a =
  if is_value tok then
    match pos with
    | Closed => parse_tokens rest Closed true a
    | _ => parse_tokens rest Collecting extras (add_filename tok a)
    end
  else
    match find_option option_strings tok with
    | None =>
        parse_tokens rest match pos with Before => Before | _ => Closed end
          true a
    | Some d_help => Exit 0
    | Some d =>
        if takes_value d then
          match rest with
          | [] => Exit 2
          | v :: rest' =>
              if is_value v then
                match PyStr.int v with
                | None => Exit 2
                | Some n =>
                    match store_int d n a with
                    | Namespace a' =>
                        parse_tokens rest'
                          match pos with Before => Before | _ => Closed end
                          extras a'
                    | Exit s => Exit s
                    end
                end
              else Exit 2
          end
        else
          parse_tokens rest match pos with Before => Before | _ => Closed end
            extras (store_true d a)
    end.
Proof. reflexivity. Qed.

(** A property of the namespace that every step of the scan keeps holds
    of the namespace of an accepted command line. *)
Lemma parse_tokens_invariant (P : Args -> Prop) :
  (forall f a, P a -> P (add_filename f a)) ->
  (forall d a, P a -> P (store_true d a)) ->
  (forall d n a a', P a -> store_int d n a = Namespace a' -> P a') ->
  forall toks pos extras a a',
    P a -> parse_tokens toks pos extras a = Namespace a' -> P a'.
Proof.
  intros Hfile Hflag Hint toks.
  assert (Hlen : exists n, (length toks <= n)%nat) by (by eexists).
  destruct Hlen as [n Hlen]. revert toks Hlen.
  induction n as [|n IH]; intros toks Hlen pos extras a a' Ha Hparse.
  { destruct toks; simpl in *; [|lia].
    destruct extras; congruence. }
  destruct toks as [|tok rest].
  { simpl in Hparse. destruct extras; congruence. }
  rewrite parse_tokens_cons in Hparse. simpl in Hlen.
  assert (Hrest : (length rest <= n)%nat) by lia.
  destruct (is_value tok).
  { destruct pos;
      [exact (IH rest Hrest _ _ _ a' (Hfile tok a Ha) Hparse)
      |exact (IH rest Hrest _ _ _ a' (Hfile tok a Ha) Hparse)
      |exact (IH rest Hrest _ _ _ a' Ha Hparse)]. }
  destruct (find_option option_strings tok) as [d|];
    [|exact (IH rest Hrest _ _ _ a' Ha Hparse)].
  destruct (takes_value d) eqn:Hd.
  - assert (Hstep :
      match rest with
      | [] => Exit 2
      | v :: rest' =>
          if is_value v then
            match PyStr.int v with
            | None => Exit 2
            | Some n =>
                match store_int d n a with
                | Namespace a0 =>
                    parse_tokens rest'
                      match pos with Before => Before | _ => Closed end
                      extras a0
                | Exit s => Exit s
                end
            end
          else Exit 2
      end = Namespace a') by (by destruct d).
    clear Hparse. destruct rest as [|v rest']; [done|].
    destruct (is_value v); [|done].
    destruct (PyStr.int v) as [k|]; [|done].
    destruct (store_int d k a) as [a0|] eqn:Hstore; [|done].
    assert (Ha0 : P a0) by (eapply Hint; eauto).
    assert (Hrest' : (length rest' <= n)%nat) by (simpl in Hlen; lia).
    exact (IH rest' Hrest' _ _ a0 a' Ha0 Hstep).
  - assert (Hstep :
      parse_tokens rest match pos with Before => Before | _ => Closed end
        extras (store_true d a) = Namespace a')
      by (by destruct d).
    exact (IH rest Hrest _ _ _ a' (Hflag d a Ha) Hstep).
Qed.

Lemma parse_args_log_level argv args :
  parse_args argv = Namespace args -> 0 <= log_level args <= 2.
Proof.
  apply (parse_tokens_invariant (fun a => 0 <= log_level a <= 2)).
  - done.
  - by intros [] a.
  - intros d n a a' Ha Hstore. destruct d; simpl in Hstore;
      try (injection Hstore as <-; exact Ha); try discriminate Hstore.
    destruct ((0 <=? n) && (n <? 3)) eqn:Hn; [|done].
    injection Hstore as <-. simpl. lia.
  - simpl. lia.
Qed.

Lemma parse_tokens_values names pos a :
  Forall (fun name => is_value name = true) names ->
  pos <> Closed ->
  parse_tokens names pos false a
  = Namespace (set_filenames (filenames a ++ names) a).
Proof.
  intros Hnames. revert pos a.
  induction Hnames as [|name names Hname _ IH]; intros pos a Hpos.
  - simpl. rewrite app_nil_r. by destruct a.
  - rewrite parse_tokens_cons, Hname. destruct pos; [| |done];
      rewrite IH by done; unfold set_filenames, add_filename; simpl;
      by rewrite <- app_assoc.
Qed.

(** X3: a command line of filenames alone (no token that starts with a
    dash, apart from a lone dash or a negative number) is accepted with
    the defaults of the table: 5 attempts, depth 1, log level 0, every
    flag off, and the filenames in the order given. *)
Theorem filenames_only_defaults (names : list string) :
  Forall (fun name => is_value name = true) names ->
  parse_args names = Namespace (set_filenames names defaults).
Proof.
  intros Hnames. unfold parse_args.
  by rewrite (parse_tokens_values names Before defaults Hnames).
Qed.

Lemma filenames_only_defaults_witness :
  parse_args ["a.py"; "pkg/b.py:Foo.bar"; "-"]
  = Namespace (set_filenames ["a.py"; "pkg/b.py:Foo.bar"; "-"] defaults).
Proof.
  apply (filenames_only_defaults ["a.py"; "pkg/b.py:Foo.bar"; "-"]).
  repeat constructor.
Defined.

(** *** main as a whole *)

Lemma main_eq (document_file : Engine) argv w :
  main document_file argv w =
  match get_arguments argv w with
  | (Ok args, w1) =>
      for_each (filenames args)
        (process document_file args (DocstringService args (get_logger args)))
        w1
  | (Raise e, w1) => (Raise e, w1)
  end.
Proof. reflexivity. Qed.

Lemma events_of_raise {A} (m : M A) w e evs :
  m w = (Raise e, add_events evs w) -> events_of m w = evs.
Proof.
  intros H. apply events_of_eq. unfold after. by rewrite H.
Qed.

(** Every service call of a run is made on the one service object built
    from the parsed arguments and the two example texts. *)
Lemma main_service (document_file : Engine) argv w service filename paths :
  In (EvDocument service filename paths) (events_of (main document_file argv) w) ->
  exists args doc fn,
    parse_args argv = Namespace args
    /\ files w !! example_docstring_path = Some doc
    /\ files w !! example_function_path = Some fn
    /\ service = DocstringService (set_examples doc fn args)
                   (get_logger (set_examples doc fn args)).
Proof.
  intros Hin.
  destruct (parse_args argv) as [args|status] eqn:Hparse.
  2:{ rewrite (events_of_raise _ w (SystemExit status) []) in Hin; [done|].
      rewrite main_eq, get_arguments_eq, Hparse. by rewrite add_events_nil. }
  destruct (files w !! example_docstring_path) as [doc|] eqn:Hdoc.
  2:{ rewrite (events_of_raise _ w (FileNotFoundError example_docstring_path)
                 [EvRead example_docstring_path]) in Hin.
      - by destruct Hin as [?|[]].
      - by rewrite main_eq, get_arguments_eq, Hparse, Hdoc. }
  destruct (files w !! example_function_path) as [fn|] eqn:Hfn.
  2:{ rewrite (events_of_raise _ w (FileNotFoundError example_function_path)
                 [EvRead example_docstring_path;
                  EvRead example_function_path]) in Hin.
      - by destruct Hin as [?|[?|[]]].
      - by rewrite main_eq, get_arguments_eq, Hparse, Hdoc, Hfn. }
  rewrite (events_of_main _ _ _ _ _ _ Hparse Hdoc Hfn) in Hin.
  destruct Hin as [?|[?|Hin]]; try done.
  exists args, doc, fn. repeat (split; [done|]).
  pose proof (batch_events document_file (set_examples doc fn args)
                (DocstringService (set_examples doc fn args)
                   (get_logger (set_examples doc fn args)))
                (filenames (set_examples doc fn args))
                (add_events [EvRead example_docstring_path;
                             EvRead example_function_path] w)) as Hbatch.
  rewrite Forall_forall in Hbatch.
  exact (Hbatch _ (proj2 (list_elem_of_In _ _) Hin)).
Qed.

(** X4: the service always gets a logger with a level.  [--log-level] is
    held to 0, 1 or 2 by its [choices], so one of the three branches of
    [get_logger] applies: CRITICAL for 0, INFO for 1, DEBUG for 2. *)
Theorem logger_level_always_set (document_file : Engine) argv w
    service filename paths :
  In (EvDocument service filename paths)
     (events_of (main document_file argv) w) ->
  0 <= log_level (service_args service) <= 2
  /\ level (service_logger service)
     = Some (if log_level (service_args service) =? 0 then CRITICAL
             else if log_level (service_args service) =? 1 then INFO
             else DEBUG).
Proof.
  intros Hin.
  destruct (main_service _ _ _ _ _ _ Hin)
    as (args & doc & fn & Hparse & _ & _ & ->).
  pose proof (parse_args_log_level _ _ Hparse) as Hlevel.
  simpl. split; [done|]. unfold get_logger. simpl.
  destruct (log_level args =? 0) eqn:H0; [done|].
  destruct (log_level args =? 1) eqn:H1; [done|].
  destruct (log_level args =? 2) eqn:H2; [done|]. lia.
Qed.

Lemma logger_level_always_set_witness :
  level (service_logger
           (DocstringService
              (set_examples "An example docstring." "def example(): pass"
                 (mkArgs 5 false 1 2 false false false false false
                    ["a.py"] "" ""))
              (mkLogger (Some DEBUG))))
  = Some DEBUG.
Proof.
  assert (Hin : In (EvDocument
                      (DocstringService
                         (set_examples "An example docstring."
                            "def example(): pass"
                            (mkArgs 5 false 1 2 false false false false false
                               ["a.py"] "" ""))
                         (mkLogger (Some DEBUG)))
                      "a.py" None)
                   (events_of (main sample_document_file ["-l"; "2"; "a.py"])
                      (sample_world ∅ []))).
  { vm_compute. right. right. left. reflexivity. }
  exact (proj2 (logger_level_always_set sample_document_file
                  ["-l"; "2"; "a.py"] (sample_world ∅ []) _ _ _ Hin)).
Defined.

(** X5: on an accepted command line, a missing example file ends the
    run before the loop.  Without the example docstring the run raises
    [FileNotFoundError] for it after that one read, the example function
    not being opened; without the example function alone it raises for
    that one after the two reads.  In both cases no service call, print,
    prompt or write is made and the files and standard input are as
    before.  With both files there, the run starts with these two reads
    and makes no other read. *)
Theorem example_file_errors (document_file : Engine) argv w args :
  parse_args argv = Namespace args ->
  match files w !! example_docstring_path,
        files w !! example_function_path with
  | None, _ =>
      main document_file argv w
      = (Raise (FileNotFoundError example_docstring_path),
         add_events [EvRead example_docstring_path] w)
  | Some _, None =>
      main document_file argv w
      = (Raise (FileNotFoundError example_function_path),
         add_events [EvRead example_docstring_path;
                     EvRead example_function_path] w)
  | Some _, Some _ =>
      exists rest,
        events_of (main document_file argv) w
        = EvRead example_docstring_path
          :: EvRead example_function_path :: rest
        /\ Forall (fun e => is_read e = false) rest
  end.
Proof.
  intros Hparse.
  destruct (files w !! example_docstring_path) as [doc|] eqn:Hdoc.
  2:{ by rewrite main_eq, get_arguments_eq, Hparse, Hdoc. }
  destruct (files w !! example_function_path) as [fn|] eqn:Hfn.
  2:{ by rewrite main_eq, get_arguments_eq, Hparse, Hdoc, Hfn. }
  rewrite (events_of_main _ _ _ _ _ _ Hparse Hdoc Hfn).
  eexists. split; [reflexivity|].
  eapply Forall_impl; [apply batch_events|]. by intros [].
Qed.

Lemma example_file_errors_witness :
  main sample_document_file ["-c"; "a.py"] bare_world
  = (Raise (FileNotFoundError example_docstring_path),
     add_events [EvRead example_docstring_path] bare_world).
Proof.
  apply (example_file_errors sample_document_file ["-c"; "a.py"] bare_world
           (mkArgs 5 true 1 0 false false false false false ["a.py"] "" "")).
  reflexivity.
Defined.

(** X6: a command line without filenames is accepted ([nargs='*']) and
    the run then reads the two example files and does nothing else: no
    service call, no output, no change, whatever the flags. *)
Theorem no_filenames_no_work (document_file : Engine) argv w args doc fn :
  parse_args argv = Namespace args ->
  filenames args = [] ->
  files w !! example_docstring_path = Some doc ->
  files w !! example_function_path = Some fn ->
  main document_file argv w
  = (Ok tt, add_events [EvRead example_docstring_path;
                        EvRead example_function_path] w).
Proof.
  intros Hparse Hnames Hdoc Hfn.
  rewrite main_eq, get_arguments_eq, Hparse, Hdoc, Hfn.
  change (filenames (set_examples doc fn args)) with (filenames args).
  by rewrite Hnames.
Qed.

Lemma no_filenames_no_work_witness :
  main sample_document_file ["-c"; "-m"; "-r"] (sample_world ∅ [])
  = (Ok tt, add_events [EvRead example_docstring_path;
                        EvRead example_function_path] (sample_world ∅ [])).
Proof.
  apply (no_filenames_no_work sample_document_file ["-c"; "-m"; "-r"]
           (sample_world ∅ [])
           (mkArgs 5 true 1 0 true false true false false [] "" "")
           "An example docstring." "def example(): pass");
    reflexivity.
Defined.

(** *** What one file and a batch leave behind *)

Lemma handle_result_world args filename modified_file reports w :
  locked (after (handle_result args filename modified_file reports) w)
  = locked w
  /\ (files (after (handle_result args filename modified_file reports) w)
      = files w
      \/ files (after (handle_result args filename modified_file reports) w)
         = <[filename := modified_file]> (files w))
  /\ (stdin (after (handle_result args filename modified_file reports) w)
      = stdin w
      \/ (modify args = true /\ preview args = true
          /\ exists user_response,
               stdin w
               = user_response
                 :: stdin (after (handle_result args filename modified_file
                                    reports) w))).
Proof.
  destruct (handle_result_cases args filename modified_file reports w)
    as (res & w2 & HS & Heq).
  unfold after. rewrite Heq. clear Heq.
  destruct HS as [H0 | H0 Hp Hl | H0 Hp Hl | H0 Hp Hin
                 | resp more H0 Hp Hin Hy | resp more H0 Hp Hin Hy Hl
                 | resp more H0 Hp Hin Hy Hl];
    cbn [locked files stdin add_events] in *;
    (split; [reflexivity|]); (split; [by auto|]);
    first [ by left
          | right; split; [done|]; split; [done|]; by exists resp ].
Qed.

Lemma process_world (document_file : Engine) args service d w :
  locked (after (process document_file args service d) w) = locked w
  /\ (files (after (process document_file args service d) w) = files w
      \/ exists text,
           files (after (process document_file args service d) w)
           = <[filename_of d := text]> (files w))
  /\ (stdin (after (process document_file args service d) w) = stdin w
      \/ (modify args = true /\ preview args = true
          /\ exists user_response,
               stdin w
               = user_response
                 :: stdin (after (process document_file args service d) w))).
Proof.
  unfold after. rewrite process_eq.
  destruct (document_file _ _ _ _) as [[m r]|e]; [|simpl; eauto].
  destruct (handle_result_world args (filename_of d) m r
              (emit (EvDocument service (filename_of d)
                       (function_paths_of d)) w))
    as (Hl & Hf & Hs).
  unfold after in *. simpl in *. split; [done|]. split; [|done].
  destruct Hf; eauto.
Qed.

Lemma for_each_after {A} (R : World -> World -> Prop) (xs : list A)
    (body : A -> M unit) :
  (forall w, R w w) ->
  (forall w1 w2 w3, R w1 w2 -> R w2 w3 -> R w1 w3) ->
  (forall x w, In x xs -> R w (after (body x) w)) ->
  forall w, R w (after (for_each xs body) w).
Proof.
  intros Hrefl Htrans. induction xs as [|x xs IH]; intros Hbody w.
  - apply Hrefl.
  - cbn [for_each]. rewrite after_bind.
    destruct (outcome (body x) w).
    + eapply Htrans; [apply Hbody; by left|].
      apply IH. intros y w' Hy. apply Hbody. by right.
    + apply Hbody. by left.
Qed.

Lemma for_each_events {A} (P : Event -> Prop) (xs : list A)
    (body : A -> M unit) :
  (forall x, grows (body x)) ->
  (forall x w, In x xs -> Forall P (events_of (body x) w)) ->
  forall w, Forall P (events_of (for_each xs body) w).
Proof.
  intros Hgrows. induction xs as [|x xs IH]; intros Hbody w.
  - rewrite (events_of_eq _ w []); [constructor|].
    simpl. by rewrite app_nil_r.
  - cbn [for_each].
    rewrite events_of_bind;
      [|apply Hgrows | intros _; by apply grows_for_each].
    apply Forall_app. split; [apply Hbody; by left|].
    destruct (outcome (body x) w); [|constructor].
    apply IH. intros y w' Hy. apply Hbody. by right.
Qed.

(** X8: standard input is read only to confirm a save.  Unless both
    [modify] and [preview] are set, a batch makes no prompt and leaves
    standard input as it was. *)
Theorem stdin_untouched_without_confirmation (document_file : Engine) args
    service (names : list string) (w : World) :
  modify args && preview args = false ->
  stdin (after (for_each names (process document_file args service)) w)
  = stdin w
  /\ Forall (fun e => is_input e = false)
       (events_of (for_each names (process document_file args service)) w).
Proof.
  intros Hflags. split.
  - apply (for_each_after (fun w1 w2 => stdin w2 = stdin w1)).
    + done.
    + intros w1 w2 w3 H12 H23. congruence.
    + intros d w' _.
      destruct (process_world document_file args service d w')
        as (_ & _ & [Hs | (Hm & Hp & _)]); [done|].
      rewrite Hm, Hp in Hflags. discriminate Hflags.
  - apply for_each_events; [intros; apply grows_process|].
    intros d w' _. rewrite events_of_process. constructor; [done|].
    destruct (document_file _ _ _ _) as [[m r]|e]; [|constructor].
    set (w1 := emit _ w'). clearbody w1.
    destruct (handle_result_cases args (filename_of d) m r w1)
      as (res & w2 & HS & Heq).
    unfold events_of, after. rewrite Heq. clear Heq.
    assert (Hprinted : Forall (fun e => is_input e = false)
                         (printed_reports (report args) r)).
    { eapply Forall_impl; [apply printed_reports_prints|].
      by intros e [text ->]. }
    destruct HS as [H0 | H0 Hp Hl | H0 Hp Hl | H0 Hp Hin
                   | resp more H0 Hp Hin Hy | resp more H0 Hp Hin Hy Hl
                   | resp more H0 Hp Hin Hy Hl];
      try (rewrite H0, Hp in Hflags; discriminate Hflags);
      simpl; rewrite <- ?app_assoc, ?drop_app_length;
      repeat (apply Forall_app; split); try done;
      destruct (preview args); repeat constructor; done.
Qed.

Lemma stdin_untouched_without_confirmation_witness :
  stdin (after (for_each ["a.py"; "b.py"]
                  (process sample_document_file
                     (sample_args true false true ["a.py"; "b.py"])
                     (sample_service
                        (sample_args true false true ["a.py"; "b.py"]))))
           (sample_world ∅ ["y"; "n"]))
  = ["y"; "n"].
Proof.
  apply (stdin_untouched_without_confirmation sample_document_file
           (sample_args true false true ["a.py"; "b.py"])
           (sample_service (sample_args true false true ["a.py"; "b.py"]))
           ["a.py"; "b.py"] (sample_world ∅ ["y"; "n"])).
  reflexivity.
Defined.

(** X9: a batch reads at most one line of standard input for each
    filename, from the front: what is left of standard input is what was
    there without its first k lines, for some k that is at most the
    number of filenames. *)
Theorem at_most_one_answer_per_file (document_file : Engine) args service
    (names : list string) (w : World) :
  exists k,
    (k <= length names)%nat
    /\ stdin (after (for_each names (process document_file args service)) w)
       = drop k (stdin w).
Proof.
  revert w. induction names as [|d names IH]; intros w.
  - exists O. split; [done|]. by rewrite drop_0.
  - cbn [for_each]. rewrite after_bind.
    destruct (process_world document_file args service d w)
      as (_ & _ & Hs).
    assert (Hone : exists j, (j <= 1)%nat
              /\ stdin (after (process document_file args service d) w)
                 = drop j (stdin w)).
    { destruct Hs as [Hs | (_ & _ & resp & Hs)].
      - exists O. split; [lia|]. by rewrite drop_0.
      - exists 1%nat. split; [lia|]. rewrite Hs at 1. simpl.
        by rewrite drop_0. }
    destruct Hone as (j & Hj & Hone).
    destruct (outcome (process document_file args service d) w).
    + destruct (IH (after (process document_file args service d) w))
        as (k & Hk & ->).
      exists (j + k)%nat. split; [simpl; lia|].
      by rewrite Hone, drop_drop.
    + exists j. split; [simpl; lia | done].
Qed.

Lemma filename_of_colon_free d : PyStr.contains ":" (filename_of d) = false.
Proof.
  unfold filename_of, parts_of.
  pose proof (split_pieces ":" d) as Hpieces.
  pose proof (split_not_nil ":" d) as Hne.
  destruct (PyStr.split ":" d) as [|p ps]; [done|].
  by apply Forall_cons in Hpieces as [Hp _].
Qed.

(** X10: every write of a batch goes to the file name of one of the
    decorated filenames, the part before the first colon, so never to a
    path with a colon in it: a path such as [C:\src\a.py] cannot be
    written by the driver, which would take [C] for the file. *)
Theorem writes_go_to_named_files (document_file : Engine) args service
    (names : list string) (w : World) (path text : string) :
  In (EvWrite path text)
     (events_of (for_each names (process document_file args service)) w) ->
  PyStr.contains ":" path = false
  /\ exists d, In d names /\ path = filename_of d.
Proof.
  intros Hin.
  pose proof (for_each_events
    (fun e => match e with
              | EvWrite p _ =>
                  PyStr.contains ":" p = false
                  /\ exists d, In d names /\ p = filename_of d
              | _ => True
              end)
    names (process document_file args service)
    (fun d => grows_process document_file args service d)) as Hall.
  assert (Hbody : forall d w', In d names ->
    Forall (fun e => match e with
                     | EvWrite p _ =>
                         PyStr.contains ":" p = false
                         /\ exists d, In d names /\ p = filename_of d
                     | _ => True
                     end)
      (events_of (process document_file args service d) w')).
  { intros d w' Hd.
    destruct (process_segment document_file args service d w')
      as (rest & -> & Hrest).
    constructor; [done|]. eapply Forall_impl; [exact Hrest|].
    intros [] He; simpl in He; try done. subst path0.
    split; [apply filename_of_colon_free | eauto]. }
  specialize (Hall Hbody w). rewrite Forall_forall in Hall.
  exact (Hall _ (proj2 (list_elem_of_In _ _) Hin)).
Qed.

Lemma writes_go_to_named_files_witness :
  PyStr.contains ":" "a.py" = false
  /\ exists d, In d ["a.py:Foo.bar"] /\ "a.py" = filename_of d.
Proof.
  apply (writes_go_to_named_files sample_document_file
           (sample_args true false false ["a.py:Foo.bar"])
           (sample_service (sample_args true false false ["a.py:Foo.bar"]))
           ["a.py:Foo.bar"] (sample_world ∅ []) "a.py" "def foo(): pass").
  vm_compute. right. left. reflexivity.
Defined.

(** X11: with none of [modify], [preview] and [report] set, what the
    service returns is dropped: a batch makes its service calls and
    nothing else (no print, no prompt, no write), and leaves the files
    and standard input as they were. *)
Theorem results_dropped_without_flags (document_file : Engine) args service
    (names : list string) (w : World) :
  modify args = false -> preview args = false -> report args = false ->
  Forall (fun e => is_document e = true)
    (events_of (for_each names (process document_file args service)) w)
  /\ files (after (for_each names (process document_file args service)) w)
     = files w
  /\ stdin (after (for_each names (process document_file args service)) w)
     = stdin w.
Proof.
  intros Hm Hp Hr. split; [|split].
  - apply for_each_events; [intros; apply grows_process|].
    intros d w' _. rewrite events_of_process. constructor; [done|].
    destruct (document_file _ _ _ _) as [[m r]|e]; [|constructor].
    set (w1 := emit _ w'). clearbody w1.
    destruct (handle_result_cases args (filename_of d) m r w1)
      as (res & w2 & HS & Heq).
    unfold events_of, after. rewrite Heq. clear Heq.
    destruct HS; try congruence. simpl.
    rewrite Hp, Hr, <- app_assoc, drop_app_length.
    by destruct r as [[|? ?]|].
  - apply (for_each_after (fun w1 w2 => files w2 = files w1)).
    + done.
    + intros w1 w2 w3 H12 H23. congruence.
    + intros d w' _. unfold after. rewrite process_eq.
      destruct (document_file _ _ _ _) as [[m r]|e]; [|done].
      destruct (handle_result_cases args (filename_of d) m r
                  (emit (EvDocument service (filename_of d)
                           (function_paths_of d)) w'))
        as (res & w2 & HS & ->).
      destruct HS; try congruence. done.
  - apply (for_each_after (fun w1 w2 => stdin w2 = stdin w1)).
    + done.
    + intros w1 w2 w3 H12 H23. congruence.
    + intros d w' _.
      destruct (process_world document_file args service d w')
        as (_ & _ & [Hs | (Hm' & _)]); [done | congruence].
Qed.

Lemma results_dropped_without_flags_witness :
  Forall (fun e => is_document e = true)
    (events_of (for_each ["a.py"; "b.py"]
                  (process sample_document_file
                     (sample_args false false false ["a.py"; "b.py"])
                     (sample_service
                        (sample_args false false false ["a.py"; "b.py"]))))
       (sample_world ∅ [])).
Proof.
  apply (results_dropped_without_flags sample_document_file
           (sample_args false false false ["a.py"; "b.py"])
           (sample_service (sample_args false false false ["a.py"; "b.py"]))
           ["a.py"; "b.py"] (sample_world ∅ [])); reflexivity.
Defined.

(** X12: of the configuration, the driver's own steps look at [modify],
    [preview] and [report] only.  Two configurations that agree on these
    three give the same batch (same calls to the same service object,
    same result, same world), whatever their attempts, depth, log level,
    create, update and validate values, filenames and example texts. *)
Theorem driver_looks_at_three_flags (document_file : Engine) args1 args2
    service (names : list string) (w : World) :
  same_driver_flags args1 args2 ->
  for_each names (process document_file args1 service) w
  = for_each names (process document_file args2 service) w.
Proof.
  intros (Hm & Hp & Hr).
  assert (Hbody : forall d w',
    process document_file args1 service d w'
    = process document_file args2 service d w').
  { intros d w'. rewrite !process_eq.
    destruct (document_file _ _ _ _) as [[m r]|e]; [|done].
    unfold handle_result, preview_step, save_step, report_step.
    by rewrite Hm, Hp, Hr. }
  revert w. induction names as [|d names IH]; intros w; [done|].
  cbn [for_each]. unfold bind. rewrite Hbody.
  destruct (process document_file args2 service d w) as [[[]|e] w'];
    [apply IH | done].
Qed.

Lemma driver_looks_at_three_flags_witness :
  for_each ["a.py"]
    (process sample_document_file (sample_args true false true ["a.py"])
       (sample_service (sample_args true false true ["a.py"])))
    (sample_world ∅ [])
  = for_each ["a.py"]
      (process sample_document_file
         (set_attempts 100 (set_depth 7 (sample_args true false true [])))
         (sample_service (sample_args true false true ["a.py"])))
      (sample_world ∅ []).
Proof.
  apply (driver_looks_at_three_flags sample_document_file
           (sample_args true false true ["a.py"])
           (set_attempts 100 (set_depth 7 (sample_args true false true [])))
           (sample_service (sample_args true false true ["a.py"]))
           ["a.py"] (sample_world ∅ [])).
  repeat split.
Defined.

Lemma messages_differ filename :
  updated_message filename <> not_updated_message filename.
Proof.
  intros H. apply (f_equal String.length) in H.
  unfold updated_message, not_updated_message in H.
  rewrite !string_length_app in H. simpl in H. lia.
Qed.

(** X13: the two messages of the save step tell the truth.  [Updated f]
    is printed only after the write of the merged text to [f] went
    through, and then the file holds that text; [f was NOT updated.] is
    printed only when no write was made, and then the files are as
    before.  Under [modify] a save step that ends without an exception
    prints one of the two; one that ends with an exception, or runs
    without [modify], prints neither. *)
Theorem save_messages_truthful args (filename modified_file : string)
    (w : World) :
  (In (EvPrint (updated_message filename))
      (events_of (save_step args filename modified_file) w) ->
   In (EvWrite filename modified_file)
      (events_of (save_step args filename modified_file) w)
   /\ files (after (save_step args filename modified_file) w)
      = <[filename := modified_file]> (files w))
  /\ (In (EvPrint (not_updated_message filename))
         (events_of (save_step args filename modified_file) w) ->
      ~ In (EvWrite filename modified_file)
           (events_of (save_step args filename modified_file) w)
      /\ files (after (save_step args filename modified_file) w) = files w)
  /\ (modify args = true ->
      outcome (save_step args filename modified_file) w = Ok tt ->
      In (EvPrint (updated_message filename))
         (events_of (save_step args filename modified_file) w)
      \/ In (EvPrint (not_updated_message filename))
            (events_of (save_step args filename modified_file) w))
  /\ (modify args = false \/
      (exists e, outcome (save_step args filename modified_file) w = Raise e) ->
      forall text,
        ~ In (EvPrint text)
             (events_of (save_step args filename modified_file) w)).
Proof.
  pose proof (save_step_spec args filename modified_file w) as HS.
  pose proof (messages_differ filename) as Hdiff.
  unfold events_of.
  set (o := outcome (save_step args filename modified_file) w) in *.
  set (w' := after (save_step args filename modified_file) w) in *.
  clearbody o w'.
  unfold updated_message, not_updated_message in *.
  destruct HS as [H0 | H0 Hp Hl | H0 Hp Hl | H0 Hp Hin
                 | resp more H0 Hp Hin Hy | resp more H0 Hp Hin Hy Hl
                 | resp more H0 Hp Hin Hy Hl];
    simpl; rewrite ?drop_all, ?drop_app_length; simpl;
    repeat split; intros;
    repeat match goal with
           | H : _ \/ _ |- _ => destruct H
           | H : exists _, _ |- _ => destruct H
           | H : False |- _ => destruct H
           | H : EvPrint _ = EvPrint _ |- _ => injection H as H
           | H : @eq Event _ _ |- _ => discriminate H
           | H : @eq (Result unit) _ _ |- _ => discriminate H
           end;
    try congruence; try tauto; try (by auto);
    try (intros [?|[?|[?|[]]]]; congruence);
    try (intros [?|[?|[]]]; congruence);
    try (intros [?|[]]; congruence).
Qed.

Lemma save_messages_truthful_witness :
  In (EvPrint (updated_message "a.py"))
     (events_of (save_step (sample_args true false false ["a.py"]) "a.py"
                   "def foo(): return 1") (sample_world ∅ []))
  \/ In (EvPrint (not_updated_message "a.py"))
        (events_of (save_step (sample_args true false false ["a.py"]) "a.py"
                      "def foo(): return 1") (sample_world ∅ [])).
Proof.
  destruct (save_messages_truthful (sample_args true false false ["a.py"])
              "a.py" "def foo(): return 1" (sample_world ∅ []))
    as (_ & _ & Hone & _).
  apply Hone; reflexivity.
Defined.

(** *** The shape of a run *)

(** X14: a run that ends without an exception has called the service
    once for every filename of the command line, in the order given,
    each time with the file name and scope paths of that filename. *)
Theorem main_calls_follow_filenames (document_file : Engine) argv w args :
  parse_args argv = Namespace args ->
  outcome (main document_file argv) w = Ok tt ->
  documents (events_of (main document_file argv) w)
  = map target (filenames args).
Proof.
  intros Hparse Hok.
  destruct (files w !! example_docstring_path) as [doc|] eqn:Hdoc.
  2:{ unfold outcome in Hok.
      by rewrite main_eq, get_arguments_eq, Hparse, Hdoc in Hok. }
  destruct (files w !! example_function_path) as [fn|] eqn:Hfn.
  2:{ unfold outcome in Hok.
      by rewrite main_eq, get_arguments_eq, Hparse, Hdoc, Hfn in Hok. }
  rewrite (events_of_main _ _ _ _ _ _ Hparse Hdoc Hfn). cbn [documents].
  unfold outcome in Hok.
  rewrite main_eq, get_arguments_eq, Hparse, Hdoc, Hfn in Hok.
  set (args' := set_examples doc fn args) in *.
  set (service := DocstringService args' (get_logger args')) in *.
  set (w1 := add_events _ w) in *.
  destruct (for_each_process_segments document_file args' service
              (filenames args') w1)
    as (processed & remaining & segments & Hn & Hs & He & Ho).
  unfold outcome in Ho. rewrite Hok in Ho. subst remaining.
  rewrite He, (documents_segments _ _ _ Hs).
  rewrite app_nil_r in Hn. by rewrite <- Hn.
Qed.

Lemma main_calls_follow_filenames_witness :
  documents (events_of (main sample_document_file
                          ["-c"; "a.py:foo"; "b.py"])
               (sample_world ∅ []))
  = map target ["a.py:foo"; "b.py"].
Proof.
  apply (main_calls_follow_filenames sample_document_file
           ["-c"; "a.py:foo"; "b.py"] (sample_world ∅ [])
           (mkArgs 5 true 1 0 false false false false false
              ["a.py:foo"; "b.py"] "" "")).
  - reflexivity.
  - by vm_compute.
Defined.

(** X15: the user is asked about a text only after it was shown.  When
    the handling of a file's result makes a prompt, the first two things
    it does are to print the merged text and to ask, with the prompt that
    names the file. *)
Theorem prompt_follows_preview args (filename modified_file : string)
    (reports : option (list string)) (w : World) (prompt : string) :
  In (EvInput prompt)
     (events_of (handle_result args filename modified_file reports) w) ->
  exists rest,
    events_of (handle_result args filename modified_file reports) w
    = EvPrint modified_file :: EvInput (save_prompt filename) :: rest.
Proof.
  destruct (handle_result_cases args filename modified_file reports w)
    as (res & w2 & HS & Heq).
  unfold events_of, after. rewrite Heq. clear Heq.
  pose proof (printed_reports_not_input (report args) reports) as Hni.
  destruct HS as [H0 | H0 Hp Hl | H0 Hp Hl | H0 Hp Hin
                 | resp more H0 Hp Hin Hy | resp more H0 Hp Hin Hy Hl
                 | resp more H0 Hp Hin Hy Hl];
    try rewrite Hp; simpl; rewrite <- ?app_assoc, ?drop_app_length; simpl;
    intros Hev;
    repeat match goal with
           | H : In _ (_ ++ _) |- _ => apply in_app_iff in H
           end; simpl in *;
    try (by eexists);
    sort_events.
  destruct (preview args); simpl in *; sort_events.
Qed.

Lemma prompt_follows_preview_witness :
  exists rest,
    events_of (handle_result (sample_args true true false ["a.py"]) "a.py"
                 "def foo(): return 1" None) (sample_world ∅ ["n"])
    = EvPrint "def foo(): return 1" :: EvInput (save_prompt "a.py") :: rest.
Proof.
  apply (prompt_follows_preview (sample_args true true false ["a.py"]) "a.py"
           "def foo(): return 1" None (sample_world ∅ ["n"])
           (save_prompt "a.py")).
  vm_compute. right. left. reflexivity.
Defined.
